(** * A products / brands API over a document store

    Shallow embedding of the repository's JavaScript sources:
    - [models/product.js] and [models/index.js]: the product schema and the
      two models;
    - [models/brand.js] and [seed/brandsProducts.js], as the README lists
      them: the brand schema and the seed script ([main], [run]);
    - [db/index.js]: the connection bootstrap;
    - [server.js]: the five route handlers.

    The document store, the schema-mapping library and the web framework are
    libraries the sources call; the part of their behaviour the sources rely
    on is written out below as executable definitions: 12-byte object
    identifiers and their 24-digit hexadecimal form, casting and [required]
    validation of schema paths, collections with a unique [_id], promises
    that are awaited or dropped, and a response written by [res.send] /
    [res.json].  The middleware of [server.js] (CORS, body parsing, request
    logging) and the debug output switched on in [db/index.js] touch neither
    the collections nor the responses and are left out. *)

From Stdlib Require Import List String Ascii NArith ZArith Lia Bool DecimalString.
Import ListNotations.
Local Open Scope string_scope.

Set Warnings "-register-all".

(* ================================================================== *)
(** * Object identifiers *)
(* ================================================================== *)

Module ObjectId.

(** An identifier is 12 bytes, read as a big-endian number below [2^96]. *)
Definition t := N.

Definition modulus : N := 2 ^ 96.

Definition wf (o : t) : Prop := (o < modulus)%N.

Definition hexDigit (d : N) : ascii :=
  match d with
  | 0 => "0" | 1 => "1" | 2 => "2" | 3 => "3" | 4 => "4" | 5 => "5"
  | 6 => "6" | 7 => "7" | 8 => "8" | 9 => "9" | 10 => "a" | 11 => "b"
  | 12 => "c" | 13 => "d" | 14 => "e" | _ => "f"
  end%N%char.

Definition hexValue (c : ascii) : option N :=
  let n := N_of_ascii c in
  if ((48 <=? n) && (n <=? 57))%N then Some (n - 48)%N
  else if ((97 <=? n) && (n <=? 102))%N then Some (n - 87)%N
  else if ((65 <=? n) && (n <=? 70))%N then Some (n - 55)%N
  else None.

(** The [k] low hexadecimal digits of [n], most significant first, in
    front of [acc]. *)
Fixpoint hexDigits (k : nat) (n : N) (acc : string) : string :=
  match k with
  | O => acc
  | S k' => hexDigits k' (n / 16) (String (hexDigit (n mod 16)) acc)
  end.

(** [id.toHexString()], also what [JSON.stringify] shows for an id. *)
Definition toHexString (o : t) : string := hexDigits 24 o "".

Fixpoint parseHex (s : string) (acc : N) : option N :=
  match s with
  | EmptyString => Some acc
  | String c s' =>
      match hexValue c with
      | Some d => parseHex s' (16 * acc + d)
      | None => None
      end
  end.

(** [new ObjectId(s)] for a string: exactly 24 hexadecimal characters, or
    the constructor throws. *)
Definition fromString (s : string) : option t :=
  if Nat.eqb (String.length s) 24 then parseHex s 0 else None.

(** The k-th identifier a process generates after [o].  Of the library's
    generator (seconds, a value per process, a three-byte counter) this
    keeps one thing: identifiers generated close to each other differ.  The
    bytes of an identifier are not meant. *)
Definition step (o : t) (k : N) : t := ((o + k) mod modulus)%N.

End ObjectId.

(* ================================================================== *)
(** * JavaScript values and plain objects *)
(* ================================================================== *)

(** The values the schemas' paths are fed with.  Numbers are the integers. *)
Inductive jsval : Type :=
| VUndefined
| VNull
| VBool (b : bool)
| VNum (n : Z)
| VStr (s : string)
| VOid (o : ObjectId.t).

(** A plain object: its own properties in insertion order. *)
Definition Obj := list (string * jsval).

(** [o[k]]: [undefined] when [o] has no property [k]. *)
Fixpoint getField (k : string) (o : Obj) : jsval :=
  match o with
  | [] => VUndefined
  | (k', v) :: o' => if String.eqb k k' then v else getField k o'
  end.

Definition numberToString (n : Z) : string :=
  NilZero.string_of_int (Z.to_int n).

(* ================================================================== *)
(** * Schemas *)
(* ================================================================== *)

Inductive SchemaType := TString | TObjectId.

(** One path of a schema: [{ type, required, ref }]. *)
Record PathDef := mkPath {
  p_type : SchemaType;
  p_required : bool;
  p_ref : option string
}.

Record Schema := mkSchema {
  s_paths : list (string * PathDef);
  s_timestamps : bool
}.

(** [models/product.js] *)
Definition productSchema : Schema :=
  mkSchema
    [ ("title",       mkPath TString true None);
      ("description", mkPath TString true None);
      ("price",       mkPath TString true None);
      ("brand",       mkPath TObjectId false (Some "Brand")) ]
    true.

(** [models/brand.js], from the README *)
Definition brandSchema : Schema :=
  mkSchema
    [ ("name", mkPath TString true None);
      ("url",  mkPath TString true None) ]
    true.

(** [models/index.js]: [mongoose.model('Product', productSchema)] and
    [mongoose.model('Brand', brandSchema)]. *)
Inductive Model := Product | Brand.

Definition modelName (m : Model) : string :=
  match m with Product => "Product" | Brand => "Brand" end.

Definition modelSchema (m : Model) : Schema :=
  match m with Product => productSchema | Brand => brandSchema end.

(** ** Casting and validation *)

(** Casting to [String]: [null] and [undefined] pass through, everything
    else with a [toString] of its own is converted. *)
Definition castString (v : jsval) : option jsval :=
  match v with
  | VUndefined | VNull | VStr _ => Some v
  | VNum n => Some (VStr (numberToString n))
  | VBool b => Some (VStr (if b then "true" else "false"))
  | VOid o => Some (VStr (ObjectId.toHexString o))
  end.

(** Casting to [ObjectId]: an identifier is kept, anything else goes through
    its string form, which must be 24 hexadecimal characters; the string
    form of a number or of a boolean never is. *)
Definition castObjectId (v : jsval) : option jsval :=
  match v with
  | VUndefined | VNull | VOid _ => Some v
  | VStr s => option_map VOid (ObjectId.fromString s)
  | VNum _ | VBool _ => None
  end.

Definition cast (ty : SchemaType) (v : jsval) : option jsval :=
  match ty with
  | TString => castString v
  | TObjectId => castObjectId v
  end.

(** The [required] validator of each type: a string must be non-empty. *)
Definition checkRequired (ty : SchemaType) (v : jsval) : bool :=
  match ty, v with
  | TString, VStr s => negb (String.eqb s "")
  | TObjectId, VOid _ => true
  | _, _ => false
  end.

(** A document in memory, as [new Model(obj)] builds it: the generated
    [_id], the cast values of the schema's paths that [obj] sets (other
    properties of [obj] are dropped) and the paths whose value did not cast. *)
Record Document := mkDocument {
  d_id : ObjectId.t;
  d_fields : Obj;
  d_castErrors : list string
}.

Fixpoint castPaths (paths : list (string * PathDef)) (obj : Obj)
  : Obj * list string :=
  match paths with
  | [] => ([], [])
  | (k, def) :: rest =>
      let (fields, errs) := castPaths rest obj in
      match getField k obj with
      | VUndefined => (fields, errs)
      | v =>
          match cast (p_type def) v with
          | Some v' => ((k, v') :: fields, errs)
          | None => (fields, k :: errs)
          end
      end
  end.

Definition buildDocument (s : Schema) (id : ObjectId.t) (obj : Obj) : Document :=
  let (fields, errs) := castPaths (s_paths s) obj in
  mkDocument id fields errs.

(** The required paths of [paths] that [fields] leaves unset, null or empty. *)
Fixpoint missingRequired (paths : list (string * PathDef)) (fields : Obj)
  : list string :=
  match paths with
  | [] => []
  | (k, def) :: rest =>
      if p_required def && negb (checkRequired (p_type def) (getField k fields))
      then k :: missingRequired rest fields
      else missingRequired rest fields
  end.

(** [doc.validate()]: the paths in error, none when the document is valid. *)
Definition validationErrors (s : Schema) (d : Document) : list string :=
  d_castErrors d ++ missingRequired (s_paths s) (d_fields d).

(* ================================================================== *)
(** * The store, the process and the effects *)
(* ================================================================== *)

(** A stored document: what [save] and [insertMany] write.  [timestamps:
    true] adds [createdAt] and [updatedAt]; [__v] is the version key. *)
Record StoredDoc := mkStored {
  sd_id : ObjectId.t;
  sd_fields : Obj;
  sd_createdAt : option Z;
  sd_updatedAt : option Z;
  sd_version : Z
}.

(** Errors a promise rejects with or a statement throws. *)
Inductive JsError : Type :=
| PlainError (message : string)                     (* [Error('...')] *)
| CastError (model path value : string)
| ValidationError (model : string) (paths : list string)
| DuplicateKey (id : ObjectId.t)                    (* E11000 on [_id] *)
| DatabaseUnavailable (operation : string)          (* no usable connection *)
| ConnectionFailed (message : string).              (* [connect] rejected *)

Inductive LogArg := LStr (s : string) | LErr (e : JsError).

(** What the program calls and prints, in the order it does so.  [ESave] is
    the call of [doc.save()]; when its write reaches the store is another
    matter, see [settle]. *)
Inductive Event : Type :=
| EConnect (uri : string)
| EListen (port : string)
| EConsoleLog (args : list LogArg)
| EConsoleError (args : list LogArg)
| ESave (m : Model) (d : Document)
| EInsertMany (m : Model) (ds : list StoredDoc)
| EFind (m : Model)
| EFindOne (m : Model) (id : ObjectId.t)
| EClose
| EUnhandledRejection (e : JsError).

Inductive ConnState := Disconnected | Connected.

(** A write whose promise nobody awaits: [doc.save()] as a statement. *)
Inductive Pending := PSave (m : Model) (d : Document).

(** The body of a response. *)
Inductive json : Type :=
| JNull
| JBool (b : bool)
| JNum (n : Z)
| JStr (s : string)
| JDate (ms : Z)                      (* the ISO-8601 string of an instant *)
| JArr (items : list json)
| JObj (props : list (string * json)).

Inductive Body := BText (s : string) | BJson (j : json).

Record Response := mkResponse {
  r_status : nat;
  r_contentType : string;
  r_body : Body
}.

(** The two collections, and the state of the process that talks to them.
    Nothing in the program decides when a write that is not awaited reaches
    the store: [w_schedule] does, one answer per question asked. *)
Record World := mkWorld {
  w_products : list StoredDoc;
  w_brands : list StoredDoc;
  w_conn : ConnState;
  w_nextOid : ObjectId.t;              (* the id generator *)
  w_now : Z;                           (* the clock, in milliseconds *)
  w_inflight : list Pending;           (* issued, not yet settled *)
  w_trace : list Event;                (* oldest first *)
  w_response : option Response;        (* of the request being handled *)
  w_schedule : nat -> bool;            (* does the n-th candidate settle now? *)
  w_tick : nat                         (* questions asked so far *)
}.

Definition docsOf (m : Model) (w : World) : list StoredDoc :=
  match m with Product => w_products w | Brand => w_brands w end.

Definition setDocs (m : Model) (ds : list StoredDoc) (w : World) : World :=
  match m with
  | Product => mkWorld ds (w_brands w) (w_conn w) (w_nextOid w) (w_now w)
                 (w_inflight w) (w_trace w) (w_response w)
                 (w_schedule w) (w_tick w)
  | Brand => mkWorld (w_products w) ds (w_conn w) (w_nextOid w) (w_now w)
               (w_inflight w) (w_trace w) (w_response w)
               (w_schedule w) (w_tick w)
  end.

Definition setConn (c : ConnState) (w : World) : World :=
  mkWorld (w_products w) (w_brands w) c (w_nextOid w) (w_now w)
    (w_inflight w) (w_trace w) (w_response w) (w_schedule w) (w_tick w).

Definition setNextOid (o : ObjectId.t) (w : World) : World :=
  mkWorld (w_products w) (w_brands w) (w_conn w) o (w_now w)
    (w_inflight w) (w_trace w) (w_response w) (w_schedule w) (w_tick w).

Definition setInflight (q : list Pending) (w : World) : World :=
  mkWorld (w_products w) (w_brands w) (w_conn w) (w_nextOid w) (w_now w)
    q (w_trace w) (w_response w) (w_schedule w) (w_tick w).

Definition setTrace (t : list Event) (w : World) : World :=
  mkWorld (w_products w) (w_brands w) (w_conn w) (w_nextOid w) (w_now w)
    (w_inflight w) t (w_response w) (w_schedule w) (w_tick w).

Definition setResponse (r : option Response) (w : World) : World :=
  mkWorld (w_products w) (w_brands w) (w_conn w) (w_nextOid w) (w_now w)
    (w_inflight w) (w_trace w) r (w_schedule w) (w_tick w).

Definition setTick (t : nat) (w : World) : World :=
  mkWorld (w_products w) (w_brands w) (w_conn w) (w_nextOid w) (w_now w)
    (w_inflight w) (w_trace w) (w_response w) (w_schedule w) t.

(** ** A state and exception monad *)

Inductive Outcome (A : Type) : Type :=
| Ok (a : A)
| Throw (e : JsError).
Arguments Ok {A} a.
Arguments Throw {A} e.

Definition M (A : Type) : Type := World -> Outcome A * World.

Definition ret {A} (a : A) : M A := fun w => (Ok a, w).

Definition bind {A B} (m : M A) (k : A -> M B) : M B :=
  fun w =>
    match m w with
    | (Ok a, w') => k a w'
    | (Throw e, w') => (Throw e, w')
    end.

Definition throw {A} (e : JsError) : M A := fun w => (Throw e, w).

(** [try { body } catch (err) { handler }] *)
Definition tryCatch {A} (body : M A) (handler : JsError -> M A) : M A :=
  fun w =>
    match body w with
    | (Ok a, w') => (Ok a, w')
    | (Throw e, w') => handler e w'
    end.

Notation "x <- m ;; k" := (bind m (fun x => k))
  (at level 61, m at next level, right associativity).
Notation "m ;;; k" := (bind m (fun _ => k))
  (at level 61, right associativity).

Definition emit (e : Event) : M unit :=
  fun w => (Ok tt, setTrace (w_trace w ++ [e]) w).

Definition console_log (args : list LogArg) : M unit := emit (EConsoleLog args).
Definition console_error (args : list LogArg) : M unit := emit (EConsoleError args).

(** [new ObjectId()]: the next identifier of this process. *)
Definition generateId : M ObjectId.t :=
  fun w => (Ok (ObjectId.step (w_nextOid w) 0),
            setNextOid (N.succ (w_nextOid w)) w).

(** ** The collections *)

Definition hasId (id : ObjectId.t) (ds : list StoredDoc) : bool :=
  existsb (fun d => N.eqb (sd_id d) id) ds.

(** [insertOne]: the unique index on [_id] refuses a second document with
    the same identifier. *)
Definition dbInsertOne (m : Model) (d : StoredDoc) : M unit :=
  fun w =>
    match w_conn w with
    | Disconnected => (Throw (DatabaseUnavailable "insertOne"), w)
    | Connected =>
        if hasId (sd_id d) (docsOf m w)
        then (Throw (DuplicateKey (sd_id d)), w)
        else (Ok tt, setDocs m (docsOf m w ++ [d]) w)
    end.

(** An ordered bulk write: documents go in one after the other and the
    batch stops at the first one refused. *)
Fixpoint insertOrdered (ds : list StoredDoc) (coll : list StoredDoc)
  : list StoredDoc * option JsError :=
  match ds with
  | [] => (coll, None)
  | d :: rest =>
      if hasId (sd_id d) coll then (coll, Some (DuplicateKey (sd_id d)))
      else insertOrdered rest (coll ++ [d])
  end.

Definition dbInsertMany (m : Model) (ds : list StoredDoc) : M unit :=
  emit (EInsertMany m ds) ;;;
  fun w =>
    match w_conn w with
    | Disconnected => (Throw (DatabaseUnavailable "insertMany"), w)
    | Connected =>
        match insertOrdered ds (docsOf m w) with
        | (coll, None) => (Ok tt, setDocs m coll w)
        | (coll, Some e) => (Throw e, setDocs m coll w)
        end
    end.

Definition dbFind (m : Model) : M (list StoredDoc) :=
  emit (EFind m) ;;;
  fun w =>
    match w_conn w with
    | Disconnected => (Throw (DatabaseUnavailable "find"), w)
    | Connected => (Ok (docsOf m w), w)
    end.

Definition dbFindOne (m : Model) (id : ObjectId.t) : M (option StoredDoc) :=
  emit (EFindOne m id) ;;;
  fun w =>
    match w_conn w with
    | Disconnected => (Throw (DatabaseUnavailable "findOne"), w)
    | Connected =>
        (Ok (find (fun d => N.eqb (sd_id d) id) (docsOf m w)), w)
    end.

(** ** Awaiting and not awaiting *)

Definition stored (s : Schema) (now : Z) (d : Document) : StoredDoc :=
  mkStored (d_id d) (d_fields d)
    (if s_timestamps s then Some now else None)
    (if s_timestamps s then Some now else None)
    0.

(** What [doc.save()] does once it runs: validate, stamp, insert. *)
Definition performSave (m : Model) (d : Document) : M unit :=
  match validationErrors (modelSchema m) d with
  | [] => fun w => dbInsertOne m (stored (modelSchema m) (w_now w) d) w
  | paths => throw (ValidationError (modelName m) paths)
  end.

(** Ask the schedule. *)
Definition decide : M bool :=
  fun w => (Ok (w_schedule w (w_tick w)), setTick (S (w_tick w)) w).

(** Each write in flight either settles now or stays in flight, as the
    schedule has it; the result is what is still in flight.  The schedule
    chooses which writes have settled.  Those that have are taken in the
    order of issue, which the store does not promise: statements about the
    outcome of a run are about which documents are stored.  A rejection
    reaches no handler: it is recorded, and what [node] then does with the
    process is not followed. *)
Fixpoint settleEach (q : list Pending) : M (list Pending) :=
  match q with
  | [] => ret []
  | PSave m d :: rest =>
      go <- decide ;;
      kept <- (if go : bool
               then tryCatch (performSave m d)
                      (fun e => emit (EUnhandledRejection e)) ;;;
                    ret []
               else ret [PSave m d]) ;;
      more <- settleEach rest ;;
      ret (kept ++ more)%list
  end.

(** What may happen while the program waits.  A promise that was dropped
    is not ordered with anything the program does later: its write may
    reach the store during a later wait, or not before the program stops
    waiting. *)
Definition settle : M unit :=
  fun w =>
    (kept <- settleEach (w_inflight w) ;;
     fun w' => (Ok tt, setInflight kept w')) w.

(** [await op], for an operation on the store: the program waits, then the
    operation takes effect. *)
Definition await {A} (op : M A) : M A := settle ;;; op.

(** [new Model(obj)], for an input that leaves [_id], [createdAt],
    [updatedAt] and [__v] to the library: the document gets the next
    identifier of the process.  Such a property brought by the input is
    dropped here like any property outside the schema, whereas the library
    would keep it. *)
Definition new_ (m : Model) (obj : Obj) : M Document :=
  id <- generateId ;;
  ret (buildDocument (modelSchema m) id obj).

(** [doc.save()] with the promise dropped: the write is issued and the
    program goes on. *)
Definition save_detached (m : Model) (d : Document) : M unit :=
  emit (ESave m d) ;;;
  fun w => (Ok tt, setInflight (w_inflight w ++ [PSave m d]) w).

(** [Model.find({})] *)
Definition find_all (m : Model) : M (list StoredDoc) := dbFind m.

(** [Model.findById(id)]: the id is cast before the query is sent. *)
Definition findById (m : Model) (id : string) : M (option StoredDoc) :=
  match ObjectId.fromString id with
  | None => throw (CastError (modelName m) "_id" id)
  | Some o => dbFindOne m o
  end.

Fixpoint newAll (m : Model) (objs : list Obj) : M (list Document) :=
  match objs with
  | [] => ret []
  | obj :: rest =>
      d <- new_ m obj ;;
      ds <- newAll m rest ;;
      ret (d :: ds)
  end.

(** The first document of [ds] that does not validate, with its paths in
    error. *)
Fixpoint firstInvalid (s : Schema) (ds : list Document) : option (list string) :=
  match ds with
  | [] => None
  | d :: rest =>
      match validationErrors s d with
      | [] => firstInvalid s rest
      | paths => Some paths
      end
  end.

(** [Model.insertMany(objs)]: every object becomes a document, all of them
    are validated, and only when all are valid does one bulk write go out. *)
Definition insertMany (m : Model) (objs : list Obj) : M (list StoredDoc) :=
  docs <- newAll m objs ;;
  match firstInvalid (modelSchema m) docs with
  | Some paths => throw (ValidationError (modelName m) paths)
  | None =>
      fun w =>
        let ds := map (stored (modelSchema m) (w_now w)) docs in
        (dbInsertMany m ds ;;; ret ds) w
  end.

(** [db.close()].  Nothing waits after it: a write that is still in flight
    then has not reached the store, and will not.  It is kept as in flight;
    that the driver rejects it once the connection is closed, and what
    [node] does about a rejection nobody handles, is not followed. *)
Definition db_close : M unit :=
  fun w => (Ok tt, setConn Disconnected (setTrace (w_trace w ++ [EClose]) w)).

(** ** Responses *)

Definition fieldToJSON (kv : string * jsval) : list (string * json) :=
  match snd kv with
  | VUndefined => []
  | VNull => [(fst kv, JNull)]
  | VBool b => [(fst kv, JBool b)]
  | VNum n => [(fst kv, JNum n)]
  | VStr s => [(fst kv, JStr s)]
  | VOid o => [(fst kv, JStr (ObjectId.toHexString o))]
  end.

Definition dateToJSON (k : string) (t : option Z) : list (string * json) :=
  match t with
  | Some ms => [(k, JDate ms)]
  | None => []
  end.

(** What [JSON.stringify] makes of a document.  Members are read by name
    ([jsonField]); the order in which they are listed is not meant. *)
Definition toJSON (d : StoredDoc) : json :=
  JObj ([("_id", JStr (ObjectId.toHexString (sd_id d)))]
        ++ flat_map fieldToJSON (sd_fields d)
        ++ dateToJSON "createdAt" (sd_createdAt d)
        ++ dateToJSON "updatedAt" (sd_updatedAt d)
        ++ [("__v", JNum (sd_version d))]).

(** The property [k] of a JSON object. *)
Fixpoint lookupProp (k : string) (props : list (string * json)) : option json :=
  match props with
  | [] => None
  | (k', v) :: rest => if String.eqb k k' then Some v else lookupProp k rest
  end.

Definition jsonField (k : string) (j : json) : option json :=
  match j with
  | JObj props => lookupProp k props
  | _ => None
  end.

(** [res.send(text)]: status 200 unless set otherwise. *)
Definition res_send (text : string) : M unit :=
  fun w => (Ok tt, setResponse
              (Some (mkResponse 200 "text/html; charset=utf-8" (BText text))) w).

(** [res.json(value)] *)
Definition res_json (j : json) : M unit :=
  fun w => (Ok tt, setResponse
              (Some (mkResponse 200 "application/json; charset=utf-8" (BJson j))) w).

(* ================================================================== *)
(** * [db/index.js] *)
(* ================================================================== *)

(** Whether a server answers at a given address: the outside world. *)
Inductive ConnectResult := ConnectOk | ConnectRefused (message : string).
Definition Network := string -> ConnectResult.

(** [process.env] *)
Definition Env := string -> option string.

(** [mongoose.connect(uri)]: the attempt is issued and a promise comes
    back.  Nothing waits for it here: it settles only after the module
    bodies have run to their end. *)
Definition mongoose_connect (uri : string) : M unit :=
  emit (EConnect uri).

(** The promise of [mongoose.connect(uri)] settling: fulfilled, and the
    connection is usable from then on, or rejected. *)
Definition connectSettles (net : Network) (uri : string) : M unit :=
  match net uri with
  | ConnectOk => fun w => (Ok tt, setConn Connected w)
  | ConnectRefused msg => throw (ConnectionFailed msg)
  end.

(** [err.message] *)
Definition errorMessage (e : JsError) : string :=
  match e with
  | PlainError msg => msg
  | CastError m path value =>
      "Cast to ObjectId failed for value " ++ value ++ " at path " ++ path
        ++ " for model " ++ m
  | ValidationError m _ => m ++ " validation failed"
  | DuplicateKey _ => "E11000 duplicate key error"
  | DatabaseUnavailable op => "Operation " ++ op ++ " buffering timed out"
  | ConnectionFailed msg => msg
  end.

Definition databaseUri : string := "mongodb://127.0.0.1:27017/productsDatabase".

(** The module body: [mongoose.connect('mongodb://127.0.0.1:27017/
    productsDatabase')], with the two callbacks registered on its promise. *)
Definition dbModule : M unit :=
  mongoose_connect databaseUri.

(** [.then(() => console.log(...)).catch((err) => console.error(...))]:
    what runs once the promise has settled. *)
Definition dbSettled (net : Network) : M unit :=
  tryCatch
    (connectSettles net databaseUri ;;;
     console_log [LStr "Successfully connected to MongoDB"])
    (fun err => console_error [LStr "Connection error"; LStr (errorMessage err)]).

(* ================================================================== *)
(** * [seed/brandsProducts.js] *)
(* ================================================================== *)

(** The seven objects of the [products] array, given the five brands'
    identifiers. *)
Definition seedProducts (b1 b2 b3 b4 b5 : ObjectId.t) : list Obj :=
  [ [ ("title", VStr "Apple AirPods");
      ("description", VStr "https://www.apple.com/airpods");
      ("price", VStr "250");
      ("brand", VOid b1) ];
    [ ("title", VStr "Apple iPhone Pro");
      ("description", VStr "https://www.apple.com/iphone-11-pro");
      ("price", VStr "1000");
      ("brand", VOid b1) ];
    [ ("title", VStr "Apple Watch");
      ("description", VStr "https://www.apple.com/watch");
      ("price", VStr "499");
      ("brand", VOid b1) ];
    [ ("title", VStr "Vespa Primavera");
      ("description", VStr "https://www.vespa.com/us_EN/vespa-models/primavera.html");
      ("price", VStr "3000");
      ("brand", VOid b2) ];
    [ ("title", VStr "New Balance 574 Core");
      ("description", VStr "https://www.newbalance.com/pd/574-core/ML574-EG.html");
      ("price", VStr "84");
      ("brand", VOid b3) ];
    [ ("title", VStr "Tribe Messenger Bike 004");
      ("description", VStr "https://tribebicycles.com/collections/messenger-series/products/mess-004-tx");
      ("price", VStr "675");
      ("brand", VOid b4) ];
    [ ("title", VStr "Stumptown Hair Bender Coffee");
      ("description", VStr "https://www.stumptowncoffee.com/products/hair-bender");
      ("price", VStr "17");
      ("brand", VOid b5) ] ].

(** [main].  Each [await] of the source sits in front of [new Brand(...)],
    whose value is the document itself; the [save()] that follows is a
    statement of its own and its promise is dropped. *)
Definition main : M unit :=
  brand1 <- new_ Brand [("name", VStr "Apple"); ("url", VStr "https://www.apple.com")] ;;
  save_detached Brand brand1 ;;;
  brand2 <- new_ Brand [("name", VStr "Vespa"); ("url", VStr "https://www.vespa.com")] ;;
  save_detached Brand brand2 ;;;
  brand3 <- new_ Brand [("name", VStr "New Balance"); ("url", VStr "https://www.newbalance.com")] ;;
  save_detached Brand brand3 ;;;
  brand4 <- new_ Brand [("name", VStr "Tribe"); ("url", VStr "https://www.tribebicycles.com")] ;;
  save_detached Brand brand4 ;;;
  brand5 <- new_ Brand [("name", VStr "Stumptown"); ("url", VStr "https://www.stumptowncoffee.com")] ;;
  save_detached Brand brand5 ;;;
  let products :=
    seedProducts (d_id brand1) (d_id brand2) (d_id brand3) (d_id brand4) (d_id brand5) in
  await (insertMany Product products) ;;;
  console_log [LStr "Created products!"].

(** [run] *)
Definition run : M unit :=
  main ;;;
  db_close.

(** The script as [node] runs it: the [db] module is loaded, then [run()].
    The library holds back what [run] sends until the attempt to connect
    has settled, so the script is followed from that point on; how the
    console lines of the two interleave is not kept.  The listener the
    script puts on the connection's [error] event only prints. *)
Definition seedScript (net : Network) : M unit :=
  dbModule ;;;
  dbSettled net ;;;
  run.

(* ================================================================== *)
(** * [server.js] *)
(* ================================================================== *)

(** [process.env.PORT || 3001], as the listen message prints it. *)
Definition PORT (env : Env) : string :=
  match env "PORT" with
  | Some s => if String.eqb s "" then "3001" else s
  | None => "3001"
  end.

(** [app.get('/', ...)] *)
Definition getRoot : M unit :=
  res_send "This is root".

(** [app.get('/products', ...)] *)
Definition getProducts : M unit :=
  products <- await (find_all Product) ;;
  res_json (JArr (map toJSON products)).

(** [app.get('/products/:id', ...)] *)
Definition getProductById (id : string) : M unit :=
  tryCatch
    (product <- await (findById Product id) ;;
     match product with
     | None => throw (PlainError "Product not found")
     | Some p => res_json (toJSON p)
     end)
    (fun err =>
       console_log [LErr err] ;;;
       res_send "Product not found.").

(** [app.get('/brands', ...)] *)
Definition getBrands : M unit :=
  brands <- await (find_all Brand) ;;
  res_json (JArr (map toJSON brands)).

(** [app.get('/brands/:id', ...)] *)
Definition getBrandById (id : string) : M unit :=
  tryCatch
    (brand <- await (findById Brand id) ;;
     match brand with
     | None => throw (PlainError "Brand not found")
     | Some b => res_json (toJSON b)
     end)
    (fun err =>
       console_log [LErr err] ;;;
       res_send "Brand not found.").

(** The operations the server exposes, all of them [GET]. *)
Inductive Route :=
| Root
| ListProducts
| ProductById (id : string)
| ListBrands
| BrandById (id : string).

Definition handler (r : Route) : M unit :=
  match r with
  | Root => getRoot
  | ListProducts => getProducts
  | ProductById id => getProductById id
  | ListBrands => getBrands
  | BrandById id => getBrandById id
  end.

(** One request: the handler runs against a response not yet written. *)
Definition handle (r : Route) : M unit :=
  fun w => handler r (setResponse None w).

(** The module body: load [db], then listen.  The callback of [listen]
    and the callbacks of [db/index.js] run after the body, in that order:
    the port is bound before the database has answered. *)
Definition serverStart (env : Env) (net : Network) : M unit :=
  dbModule ;;;
  emit (EListen (PORT env)) ;;;
  console_log [LStr ("Express server listening on port " ++ PORT env)] ;;;
  dbSettled net.

(** A process that has not run anything yet, in front of a database holding
    [products] and [brands]. *)
Definition freshProcess (products brands : list StoredDoc)
    (firstOid : ObjectId.t) (now : Z) (schedule : nat -> bool) : World :=
  mkWorld products brands Disconnected firstOid now [] [] None schedule 0.

(* ================================================================== *)
(** * Vocabulary of the statements *)
(* ================================================================== *)

(** No write of this process is in flight.  The server never issues one. *)
Definition idle (w : World) : Prop := w_inflight w = [].

(** The path parameter [id] names no document of the collection of [m]:
    either it is not an identifier at all, or no stored [_id] equals it. *)
Definition matchesNone (m : Model) (id : string) (w : World) : Prop :=
  forall d, In d (docsOf m w) -> ObjectId.fromString id <> Some (sd_id d).

Definition byId (m : Model) (id : string) : Route :=
  match m with Product => ProductById id | Brand => BrandById id end.

Definition listOf (m : Model) : Route :=
  match m with Product => ListProducts | Brand => ListBrands end.

Definition nonEmptyString (v : jsval) : Prop :=
  exists s, v = VStr s /\ s <> "".

(** Absent, null or the empty string. *)
Definition blank (v : jsval) : Prop :=
  v = VUndefined \/ v = VNull \/ v = VStr "".

Definition productOk (d : StoredDoc) : Prop :=
  nonEmptyString (getField "title" (sd_fields d)) /\
  nonEmptyString (getField "description" (sd_fields d)) /\
  nonEmptyString (getField "price" (sd_fields d)).

Definition brandOk (d : StoredDoc) : Prop :=
  nonEmptyString (getField "name" (sd_fields d)) /\
  nonEmptyString (getField "url" (sd_fields d)).

Definition storeOk (w : World) : Prop :=
  Forall productOk (w_products w) /\ Forall brandOk (w_brands w).

(** An input that leaves one of the required fields of [m] blank. *)
Definition violates (m : Model) (obj : Obj) : Prop :=
  match m with
  | Product => blank (getField "title" obj) \/ blank (getField "description" obj)
               \/ blank (getField "price" obj)
  | Brand => blank (getField "name" obj) \/ blank (getField "url" obj)
  end.

(** [doc.save()], awaited. *)
Definition save (m : Model) (d : Document) : M unit :=
  emit (ESave m d) ;;;
  await (performSave m d).

(** The writes that go through a schema. *)
Inductive Write :=
| WSave (m : Model) (obj : Obj)            (* [await new m(obj).save()] *)
| WSaveDetached (m : Model) (obj : Obj)    (* [new m(obj).save()] *)
| WInsertMany (m : Model) (objs : list Obj).

Definition write (op : Write) : M unit :=
  match op with
  | WSave m obj => d <- new_ m obj ;; save m d
  | WSaveDetached m obj => d <- new_ m obj ;; save_detached m d
  | WInsertMany m objs => await (insertMany m objs) ;;; ret tt
  end.

(** A sequence of writes, each one's failure caught, followed by whatever
    is still in flight. *)
Fixpoint writes (ops : list Write) : M unit :=
  match ops with
  | [] => settle
  | op :: rest => tryCatch (write op) (fun _ => ret tt) ;;; writes rest
  end.

(** The identifier [id] is in neither collection. *)
Definition unused (id : ObjectId.t) (w : World) : Prop :=
  hasId id (w_products w) = false /\ hasId id (w_brands w) = false.

(** The next [n] identifiers of the process are new to the database. *)
Definition nextUnused (n : N) (w : World) : Prop :=
  forall k, (k < n)%N -> unused (ObjectId.step (w_nextOid w) k) w.

Definition brandDoc (id : ObjectId.t) (now : Z) (name url : string) : StoredDoc :=
  mkStored id [("name", VStr name); ("url", VStr url)] (Some now) (Some now) 0.

Definition productDoc (id : ObjectId.t) (now : Z)
    (title description price : string) (brand : ObjectId.t) : StoredDoc :=
  mkStored id
    [("title", VStr title); ("description", VStr description);
     ("price", VStr price); ("brand", VOid brand)]
    (Some now) (Some now) 0.

(** The five brands of the seed, the first of them with identifier
    [step o 0]. *)
Definition seededBrands (o : ObjectId.t) (now : Z) : list StoredDoc :=
  [ brandDoc (ObjectId.step o 0) now "Apple" "https://www.apple.com";
    brandDoc (ObjectId.step o 1) now "Vespa" "https://www.vespa.com";
    brandDoc (ObjectId.step o 2) now "New Balance" "https://www.newbalance.com";
    brandDoc (ObjectId.step o 3) now "Tribe" "https://www.tribebicycles.com";
    brandDoc (ObjectId.step o 4) now "Stumptown" "https://www.stumptowncoffee.com" ].

(** The seven products of the seed, with identifiers [step o 5] onwards,
    each holding the identifier of its brand. *)
Definition seededProducts (o : ObjectId.t) (now : Z) : list StoredDoc :=
  [ productDoc (ObjectId.step o 5) now "Apple AirPods"
      "https://www.apple.com/airpods" "250" (ObjectId.step o 0);
    productDoc (ObjectId.step o 6) now "Apple iPhone Pro"
      "https://www.apple.com/iphone-11-pro" "1000" (ObjectId.step o 0);
    productDoc (ObjectId.step o 7) now "Apple Watch"
      "https://www.apple.com/watch" "499" (ObjectId.step o 0);
    productDoc (ObjectId.step o 8) now "Vespa Primavera"
      "https://www.vespa.com/us_EN/vespa-models/primavera.html" "3000"
      (ObjectId.step o 1);
    productDoc (ObjectId.step o 9) now "New Balance 574 Core"
      "https://www.newbalance.com/pd/574-core/ML574-EG.html" "84"
      (ObjectId.step o 2);
    productDoc (ObjectId.step o 10) now "Tribe Messenger Bike 004"
      "https://tribebicycles.com/collections/messenger-series/products/mess-004-tx"
      "675" (ObjectId.step o 3);
    productDoc (ObjectId.step o 11) now "Stumptown Hair Bender Coffee"
      "https://www.stumptowncoffee.com/products/hair-bender" "17"
      (ObjectId.step o 4) ].

(** The five brand documents of the seed as [new Brand(...)] builds them. *)
Definition seedDrafts (o : ObjectId.t) : list Document :=
  [ mkDocument (ObjectId.step o 0)
      [("name", VStr "Apple"); ("url", VStr "https://www.apple.com")] [];
    mkDocument (ObjectId.step o 1)
      [("name", VStr "Vespa"); ("url", VStr "https://www.vespa.com")] [];
    mkDocument (ObjectId.step o 2)
      [("name", VStr "New Balance"); ("url", VStr "https://www.newbalance.com")] [];
    mkDocument (ObjectId.step o 3)
      [("name", VStr "Tribe"); ("url", VStr "https://www.tribebicycles.com")] [];
    mkDocument (ObjectId.step o 4)
      [("name", VStr "Stumptown"); ("url", VStr "https://www.stumptowncoffee.com")] [] ].

(** What the seed calls and prints, in order. *)
Definition seedEvents (o : ObjectId.t) (now : Z) : list Event :=
  map (ESave Brand) (seedDrafts o)
  ++ [ EInsertMany Product (seededProducts o now);
       EConsoleLog [LStr "Created products!"];
       EClose ].

(** The elements of [xs] for which the schedule, asked from question [t]
    on, answers [want]. *)
Fixpoint pick {A} (sched : nat -> bool) (t : nat) (want : bool) (xs : list A)
  : list A :=
  match xs with
  | [] => []
  | x :: rest =>
      if Bool.eqb (sched t) want
      then x :: pick sched (S t) want rest
      else pick sched (S t) want rest
  end.

(** Two schedules: under [lazy] nothing in flight settles while the program
    waits, under [eager] everything does. *)
Definition lazy : nat -> bool := fun _ => false.
Definition eager : nat -> bool := fun _ => true.

(** The definition of the first path named [k]. *)
Fixpoint pathDef (k : string) (paths : list (string * PathDef)) : option PathDef :=
  match paths with
  | [] => None
  | (k', def) :: rest => if String.eqb k k' then Some def else pathDef k rest
  end.

(** What a path defined by [def] holds once [v] has been assigned to it. *)
Definition castOf (def : PathDef) (v : jsval) : jsval :=
  match v with
  | VUndefined => VUndefined
  | _ => match cast (p_type def) v with
         | Some v' => v'
         | None => VUndefined
         end
  end.

Definition docOk (m : Model) : StoredDoc -> Prop :=
  match m with Product => productOk | Brand => brandOk end.

(** A property of the world that a computation keeps, whatever it returns. *)
Definition preserves {A} (I : World -> Prop) (m : M A) : Prop :=
  forall w, I w -> I (snd (m w)).

(** A computation that always returns. *)
Definition neverThrows {A} (m : M A) : Prop :=
  forall w, exists a, fst (m w) = Ok a.

(** The part of the process that waiting does not touch. *)
Definition processIs (c : ConnState) (r : option Response) (q : list Pending)
    (o : ObjectId.t) (now : Z) (w : World) : Prop :=
  w_conn w = c /\ w_response w = r /\ w_inflight w = q /\
  w_nextOid w = o /\ w_now w = now.

(** Both collections are the given ones and nothing is in flight. *)
Definition storeIs (ps bs : list StoredDoc) (w : World) : Prop :=
  w_products w = ps /\ w_brands w = bs /\ w_inflight w = [].

(** An input that brings none of the properties the library fills in. *)
Definition bare (obj : Obj) : Prop :=
  getField "_id" obj = VUndefined /\
  getField "createdAt" obj = VUndefined /\
  getField "updatedAt" obj = VUndefined /\
  getField "__v" obj = VUndefined.

(** The addresses [mongoose.connect] was called with. *)
Definition connects (t : list Event) : list string :=
  flat_map (fun e => match e with EConnect u => [u] | _ => [] end) t.

(** The lines written with [console.error]. *)
Definition errorLines (t : list Event) : list (list LogArg) :=
  flat_map (fun e => match e with EConsoleError a => [a] | _ => [] end) t.

(** An event by which a request only reads or prints. *)
Definition readsOnly (e : Event) : bool :=
  match e with
  | EFind _ | EFindOne _ _ | EConsoleLog _ => true
  | _ => false
  end.

(** No two documents of the collection share an [_id]. *)
Definition uniqueIds (ds : list StoredDoc) : Prop := NoDup (map sd_id ds).

(** The ports [app.listen] was called with. *)
Definition listens (t : list Event) : list string :=
  flat_map (fun e => match e with EListen p => [p] | _ => [] end) t.

(** The requests of [rs] handled one after the other by the same process. *)
Fixpoint serve (rs : list Route) : M unit :=
  match rs with
  | [] => ret tt
  | r :: rest => handle r ;;; serve rest
  end.

(** ** Sample inputs *)

(** A server process in front of one brand and one product of that brand. *)
Definition sampleWorld : World :=
  mkWorld
    [ productDoc 5%N 1700000000000%Z "Apple AirPods"
        "https://www.apple.com/airpods" "250" 0%N ]
    [ brandDoc 0%N 1700000000000%Z "Apple" "https://www.apple.com" ]
    Connected 12%N 1700000000000%Z [] [] None eager 0.

(** A seed process, connected to an empty database, in a run where the
    writes it does not await have not settled by the time it stops waiting. *)
Definition sampleSeedProcess : World :=
  mkWorld [] [] Connected 1000%N 1700000000000%Z [] [] None lazy 0.

(** A product whose brand identifier names no stored brand. *)
Definition sampleInput : Obj :=
  [ ("title", VStr "Vespa Primavera");
    ("description", VStr "https://www.vespa.com/us_EN/vespa-models/primavera.html");
    ("price", VStr "3000");
    ("brand", VOid 99%N) ].

Definition sampleNetwork : Network := fun _ => ConnectOk.

Definition sampleEnv : Env := fun _ => None.

Definition sampleBrandInput : Obj :=
  [ ("name", VStr "Vespa"); ("url", VStr "https://www.vespa.com") ].

(** A schedule under which every other write in flight settles. *)
Definition alternating : nat -> bool := Nat.even.

(** A seed process in front of an empty database, under a given schedule. *)
Definition sampleSeedUnder (schedule : nat -> bool) : World :=
  mkWorld [] [] Connected 1000%N 1700000000000%Z [] [] None schedule 0.

(** A second seed process, started later on what a first run under [eager]
    left in the database. *)
Definition sampleReseed : World :=
  mkWorld (seededProducts 1000%N 1700000000000%Z)
    (seededBrands 1000%N 1700000000000%Z)
    Connected 5000%N 1700000060000%Z [] [] None eager 0.

(** No server answers at any address. *)
Definition sampleRefusing : Network :=
  fun _ => ConnectRefused "connect ECONNREFUSED 127.0.0.1:27017".

(** The store of [sampleWorld] behind a connection that never opened. *)
Definition sampleUnreachable : World :=
  freshProcess (w_products sampleWorld) (w_brands sampleWorld)
    12%N 1700000000000%Z eager.

(* ================================================================== *)
(** * Identifiers: the hexadecimal form reads back *)
(* ================================================================== *)

Section Hex.

Import ObjectId.
Local Open Scope N_scope.

Lemma hexValue_hexDigit (d : N) : d < 16 -> hexValue (hexDigit d) = Some d.
Proof.
  intros H.
  destruct d as [|p]; [reflexivity|].
  do 4 (destruct p as [p|p|]; try reflexivity; try lia).
Qed.

Lemma parseHex_hexDigits (k : nat) :
  forall n acc a,
    parseHex (hexDigits k n acc) a
    = parseHex acc (a * 16 ^ N.of_nat k + n mod 16 ^ N.of_nat k).
Proof.
  induction k as [|k IH]; intros n acc a.
  - cbn [hexDigits]. change (16 ^ N.of_nat 0) with 1.
    rewrite N.mod_1_r. f_equal. lia.
  - cbn [hexDigits]. rewrite IH. cbn [parseHex].
    rewrite hexValue_hexDigit by (apply N.mod_lt; lia).
    f_equal.
    rewrite Nat2N.inj_succ, N.pow_succ_r'.
    rewrite (N.Div0.mod_mul_r n 16 (16 ^ N.of_nat k)).
    lia.
Qed.

Lemma length_hexDigits (k : nat) :
  forall n acc, String.length (hexDigits k n acc) = (k + String.length acc)%nat.
Proof.
  induction k as [|k IH]; intros n acc; cbn [hexDigits].
  - reflexivity.
  - rewrite IH. cbn [String.length]. lia.
Qed.

Lemma fromString_toHexString (o : t) :
  fromString (toHexString o) = Some (o mod modulus).
Proof.
  unfold fromString, toHexString.
  rewrite length_hexDigits. cbn [String.length Nat.add Nat.eqb].
  rewrite parseHex_hexDigits. cbn [parseHex].
  f_equal.
Qed.

Lemma fromString_toHexString_wf (o : t) :
  wf o -> fromString (toHexString o) = Some o.
Proof.
  intros H. rewrite fromString_toHexString.
  f_equal. apply N.mod_small. exact H.
Qed.

Lemma step_wf (o : t) (k : N) : wf (step o k).
Proof. unfold wf, step. apply N.mod_lt. unfold modulus. lia. Qed.

Lemma step_succ (o : t) (k : N) : step (N.succ o) k = step o (N.succ k).
Proof. unfold step. f_equal. lia. Qed.

(** Fewer than [2^96] identifiers apart, two identifiers differ. *)
Lemma step_neq (o : t) (i j : N) :
  i < modulus -> j < modulus -> i <> j -> N.eqb (step o i) (step o j) = false.
Proof.
  intros Hi Hj Hne. apply N.eqb_neq. unfold step. intros E.
  assert (M : modulus <> 0) by (unfold modulus; lia).
  pose proof (N.Div0.div_mod (o + i) modulus) as Di.
  pose proof (N.Div0.div_mod (o + j) modulus) as Dj.
  pose proof (N.mod_lt (o + i) modulus M) as Li.
  rewrite E in Di.
  set (qi := (o + i) / modulus) in *.
  set (qj := (o + j) / modulus) in *.
  set (r := (o + j) mod modulus) in *.
  assert (qi = qj \/ qi + 1 <= qj \/ qj + 1 <= qi) as [Q|[Q|Q]] by lia.
  - subst qj. rewrite <- Q in Dj. lia.
  - nia.
  - nia.
Qed.

End Hex.

(* ================================================================== *)
(** * The monad and the primitives *)
(* ================================================================== *)

Lemma setInflight_idle (w : World) : idle w -> setInflight [] w = w.
Proof. unfold idle. destruct w; cbn. intros ->. reflexivity. Qed.

Lemma settle_idle (w : World) : idle w -> settle w = (Ok tt, w).
Proof.
  intros H. unfold settle. rewrite H. cbn [settleEach]. unfold bind, ret.
  rewrite setInflight_idle by exact H. reflexivity.
Qed.

Lemma await_idle {A} (op : M A) (w : World) : idle w -> await op w = op w.
Proof. intros H. unfold await, bind. rewrite settle_idle by exact H. reflexivity. Qed.

Lemma find_none_iff (id : ObjectId.t) (ds : list StoredDoc) :
  find (fun d => N.eqb (sd_id d) id) ds = None <-> hasId id ds = false.
Proof.
  unfold hasId. induction ds as [|d ds IH]; cbn.
  - tauto.
  - destruct (N.eqb (sd_id d) id); cbn.
    + split; discriminate.
    + exact IH.
Qed.

Lemma hasId_false (id : ObjectId.t) (ds : list StoredDoc) :
  hasId id ds = false <-> forall d, In d ds -> sd_id d <> id.
Proof.
  unfold hasId. induction ds as [|d ds IH]; cbn.
  - split; [intros _ x []|reflexivity].
  - rewrite orb_false_iff, IH, N.eqb_neq. split.
    + intros [H1 H2] x [<-|Hx]; auto.
    + intros H. split; [apply H; auto|intros x Hx; apply H; auto].
Qed.

Lemma hasId_app (id : ObjectId.t) (xs ys : list StoredDoc) :
  hasId id (xs ++ ys) = hasId id xs || hasId id ys.
Proof. unfold hasId. apply existsb_app. Qed.

Lemma matchesNone_find (m : Model) (id : string) (o : ObjectId.t) (w : World) :
  matchesNone m id w -> ObjectId.fromString id = Some o ->
  find (fun d => N.eqb (sd_id d) o) (docsOf m w) = None.
Proof.
  intros Hnone Hid. apply find_none_iff, hasId_false.
  intros d Hd E. apply (Hnone d Hd). rewrite Hid, E. reflexivity.
Qed.

Lemma dbFind_eq (m : Model) (w : World) :
  dbFind m w
  = match w_conn w with
    | Disconnected => (Throw (DatabaseUnavailable "find"),
                       setTrace (w_trace w ++ [EFind m]) w)
    | Connected => (Ok (docsOf m w), setTrace (w_trace w ++ [EFind m]) w)
    end.
Proof.
  unfold dbFind, bind, emit. cbn [w_conn setTrace].
  destruct (w_conn w); destruct m; reflexivity.
Qed.

Lemma dbFindOne_eq (m : Model) (o : ObjectId.t) (w : World) :
  dbFindOne m o w
  = match w_conn w with
    | Disconnected => (Throw (DatabaseUnavailable "findOne"),
                       setTrace (w_trace w ++ [EFindOne m o]) w)
    | Connected => (Ok (find (fun d => N.eqb (sd_id d) o) (docsOf m w)),
                    setTrace (w_trace w ++ [EFindOne m o]) w)
    end.
Proof.
  unfold dbFindOne, bind, emit. cbn [w_conn setTrace].
  destruct (w_conn w); destruct m; reflexivity.
Qed.

Lemma dbInsertMany_eq (m : Model) (ds : list StoredDoc) (w : World) :
  dbInsertMany m ds w
  = match w_conn w with
    | Disconnected => (Throw (DatabaseUnavailable "insertMany"),
                       setTrace (w_trace w ++ [EInsertMany m ds]) w)
    | Connected =>
        match insertOrdered ds (docsOf m w) with
        | (coll, None) =>
            (Ok tt, setDocs m coll (setTrace (w_trace w ++ [EInsertMany m ds]) w))
        | (coll, Some e) =>
            (Throw e, setDocs m coll (setTrace (w_trace w ++ [EInsertMany m ds]) w))
        end
    end.
Proof.
  unfold dbInsertMany, bind, emit. cbn [w_conn setTrace].
  destruct (w_conn w); destruct m; reflexivity.
Qed.

(** ** What is kept *)

Lemma preserves_ret {A} (I : World -> Prop) (a : A) : preserves I (ret a).
Proof. intros w H. exact H. Qed.

Lemma preserves_throw {A} (I : World -> Prop) (e : JsError) :
  preserves I (@throw A e).
Proof. intros w H. exact H. Qed.

Lemma preserves_bind {A B} (I : World -> Prop) (m : M A) (k : A -> M B) :
  preserves I m -> (forall a, preserves I (k a)) -> preserves I (bind m k).
Proof.
  intros Hm Hk w H. unfold bind.
  specialize (Hm w H). destruct (m w) as [[a|e] w']; cbn in *.
  - apply Hk. exact Hm.
  - exact Hm.
Qed.

Lemma preserves_tryCatch {A} (I : World -> Prop) (m : M A) (h : JsError -> M A) :
  preserves I m -> (forall e, preserves I (h e)) -> preserves I (tryCatch m h).
Proof.
  intros Hm Hh w H. unfold tryCatch.
  specialize (Hm w H). destruct (m w) as [[a|e] w']; cbn in *.
  - exact Hm.
  - apply Hh. exact Hm.
Qed.

Lemma preserves_match_option {A B} (I : World -> Prop) (x : option A)
    (f : A -> M B) (g : M B) :
  (forall a, preserves I (f a)) -> preserves I g ->
  preserves I (match x with Some a => f a | None => g end).
Proof. intros Hf Hg. destruct x; auto. Qed.

(** ** Settling never throws and never answers a request *)

Lemma neverThrows_ret {A} (a : A) : neverThrows (ret a).
Proof. intros w. exists a. reflexivity. Qed.

Lemma neverThrows_bind {A B} (m : M A) (k : A -> M B) :
  neverThrows m -> (forall a, neverThrows (k a)) -> neverThrows (bind m k).
Proof.
  intros Hm Hk w. unfold bind.
  destruct (Hm w) as (a & Ha). destruct (m w) as [o w']. cbn [fst] in Ha.
  subst o. apply Hk.
Qed.

Lemma neverThrows_recover {A} (m : M A) (h : JsError -> M A) :
  (forall e, neverThrows (h e)) -> neverThrows (tryCatch m h).
Proof.
  intros Hh w. unfold tryCatch.
  destruct (m w) as [[a|e] w']; [exists a; reflexivity|apply Hh].
Qed.

Lemma neverThrows_settleEach (q : list Pending) : neverThrows (settleEach q).
Proof.
  induction q as [|[m d] q IH]; cbn [settleEach].
  - apply neverThrows_ret.
  - apply neverThrows_bind; [intros w; eexists; reflexivity|].
    intros go. apply neverThrows_bind.
    + destruct go; [|apply neverThrows_ret].
      apply neverThrows_bind; [|intros; apply neverThrows_ret].
      apply neverThrows_recover. intros e w. eexists; reflexivity.
    + intros kept. apply neverThrows_bind; [exact IH|].
      intros; apply neverThrows_ret.
Qed.

Lemma settle_ok (w : World) : fst (settle w) = Ok tt.
Proof.
  unfold settle, bind.
  destruct (neverThrows_settleEach (w_inflight w) w) as (kept & Hk).
  destruct (settleEach (w_inflight w) w) as [o w']. cbn [fst] in Hk. subst o.
  reflexivity.
Qed.

Section Waiting.

Variables (c : ConnState) (r : option Response) (q0 : list Pending)
          (o : ObjectId.t) (now : Z).

Lemma waiting_decide : preserves (processIs c r q0 o now) decide.
Proof. intros w H. exact H. Qed.

Lemma waiting_emit (e : Event) : preserves (processIs c r q0 o now) (emit e).
Proof. intros w H. exact H. Qed.

Lemma waiting_performSave (m : Model) (d : Document) : preserves (processIs c r q0 o now) (performSave m d).
Proof.
  intros w H. unfold performSave.
  destruct (validationErrors (modelSchema m) d); [|exact H].
  unfold dbInsertOne. destruct (w_conn w); [exact H|].
  match goal with |- context [if ?b then _ else _] => destruct b end;
    [exact H|]. destruct m; exact H.
Qed.

Lemma waiting_settleEach (q : list Pending) : preserves (processIs c r q0 o now) (settleEach q).
Proof.
  induction q as [|[m d] q IH]; cbn [settleEach].
  - apply preserves_ret.
  - apply preserves_bind; [apply waiting_decide|].
    intros go. apply preserves_bind.
    + destruct go; [|apply preserves_ret].
      apply preserves_bind; [|intros; apply preserves_ret].
      apply preserves_tryCatch; [apply waiting_performSave|].
      intros; apply waiting_emit.
    + intros kept. apply preserves_bind; [exact IH|].
      intros; apply preserves_ret.
Qed.

End Waiting.

Lemma settle_frame (w : World) :
  let w' := snd (settle w) in
  w_conn w' = w_conn w /\ w_response w' = w_response w
  /\ w_nextOid w' = w_nextOid w /\ w_now w' = w_now w.
Proof.
  unfold settle, bind. cbn zeta.
  pose proof (waiting_settleEach (w_conn w) (w_response w) (w_inflight w)
                (w_nextOid w) (w_now w) (w_inflight w) w) as F.
  destruct (neverThrows_settleEach (w_inflight w) w) as (kept & Hk).
  destruct (settleEach (w_inflight w) w) as [out w']. cbn [fst snd] in *.
  subst out. destruct F as (Hc & Hr & _ & Ho & Hn); [repeat split|].
  cbn. tauto.
Qed.

(* ================================================================== *)
(** * The routes *)
(* ================================================================== *)

Section Routes.

Variables ps bs : list StoredDoc.

Lemma keeps_emit (e : Event) : preserves (storeIs ps bs) (emit e).
Proof. intros w H. exact H. Qed.

Lemma keeps_res_send (s : string) : preserves (storeIs ps bs) (res_send s).
Proof. intros w H. exact H. Qed.

Lemma keeps_res_json (j : json) : preserves (storeIs ps bs) (res_json j).
Proof. intros w H. exact H. Qed.

Lemma keeps_settle : preserves (storeIs ps bs) settle.
Proof.
  intros w H. rewrite settle_idle; [exact H|]. apply H.
Qed.

Lemma keeps_await {A} (op : M A) :
  preserves (storeIs ps bs) op -> preserves (storeIs ps bs) (await op).
Proof.
  intros H. unfold await. apply preserves_bind; [apply keeps_settle|].
  intros _. exact H.
Qed.

Lemma keeps_dbFind (m : Model) : preserves (storeIs ps bs) (dbFind m).
Proof.
  intros w H. unfold dbFind, bind, emit. cbn [w_conn setTrace].
  destruct (w_conn w); exact H.
Qed.

Lemma keeps_dbFindOne (m : Model) (o : ObjectId.t) :
  preserves (storeIs ps bs) (dbFindOne m o).
Proof.
  intros w H. unfold dbFindOne, bind, emit. cbn [w_conn setTrace].
  destruct (w_conn w); exact H.
Qed.

Lemma keeps_findById (m : Model) (id : string) :
  preserves (storeIs ps bs) (findById m id).
Proof.
  unfold findById. destruct (ObjectId.fromString id).
  - apply keeps_dbFindOne.
  - apply preserves_throw.
Qed.

Lemma keeps_handler (r : Route) : preserves (storeIs ps bs) (handler r).
Proof.
  destruct r; cbn [handler].
  - apply keeps_res_send.
  - apply preserves_bind; [apply keeps_await, keeps_dbFind|].
    intros; apply keeps_res_json.
  - apply preserves_tryCatch.
    + apply preserves_bind; [apply keeps_await, keeps_findById|].
      intros [p|]; [apply keeps_res_json|apply preserves_throw].
    + intros e. apply preserves_bind; [apply keeps_emit|].
      intros; apply keeps_res_send.
  - apply preserves_bind; [apply keeps_await, keeps_dbFind|].
    intros; apply keeps_res_json.
  - apply preserves_tryCatch.
    + apply preserves_bind; [apply keeps_await, keeps_findById|].
      intros [p|]; [apply keeps_res_json|apply preserves_throw].
    + intros e. apply preserves_bind; [apply keeps_emit|].
      intros; apply keeps_res_send.
Qed.

Lemma keeps_handle (r : Route) : preserves (storeIs ps bs) (handle r).
Proof.
  intros w H. unfold handle. apply keeps_handler. exact H.
Qed.

End Routes.

(** What a by-id handler does once the lookup has thrown or found nothing. *)
Lemma recovery (e : JsError) (text : string) (w : World) :
  (console_log [LErr e] ;;; res_send text) w
  = (Ok tt, setResponse (Some (mkResponse 200 "text/html; charset=utf-8" (BText text)))
              (setTrace (w_trace w ++ [EConsoleLog [LErr e]]) w)).
Proof. reflexivity. Qed.

Lemma findById_none (m : Model) (id : string) (w : World) :
  matchesNone m id w ->
  (exists e, fst (findById m id w) = Throw e) \/ fst (findById m id w) = Ok None.
Proof.
  intros Hnone. unfold findById.
  destruct (ObjectId.fromString id) as [o|] eqn:Hid.
  - rewrite dbFindOne_eq. destruct (w_conn w); cbn.
    + left. eexists. reflexivity.
    + right. rewrite (matchesNone_find m id o w Hnone Hid). reflexivity.
  - left. eexists. reflexivity.
Qed.

(** C1. [GET /products/:id] with an id that names no stored product, be it
    malformed or merely absent, answers the text "Product not found." with
    status 200, and [GET /brands/:id] answers "Brand not found." in the same
    way; the handler does not throw and the body is text, not JSON. *)
Theorem not_found_is_a_plain_200 (m : Model) (id : string) (w : World) :
  idle w ->
  matchesNone m id w ->
  fst (handle (byId m id) w) = Ok tt /\
  w_response (snd (handle (byId m id) w))
  = Some (mkResponse 200 "text/html; charset=utf-8"
            (BText (match m with
                    | Product => "Product not found."
                    | Brand => "Brand not found."
                    end))).
Proof.
  intros Hidle Hnone.
  set (w0 := setResponse None w).
  assert (Hidle0 : idle w0) by exact Hidle.
  assert (Hnone0 : matchesNone m id w0) by (destruct m; exact Hnone).
  pose proof (findById_none m id w0 Hnone0) as Hfind.
  destruct m; unfold handle, byId, handler, getProductById, getBrandById;
    fold w0; unfold tryCatch, bind;
    rewrite (await_idle _ w0 Hidle0);
    destruct (findById _ id w0) as [[[d|]|e'] w1];
    cbn in Hfind; cbn; auto;
    destruct Hfind as [[e He]|He]; discriminate.
Qed.

Lemma not_found_is_a_plain_200_witness :
  idle sampleWorld /\
  matchesNone Product "00000000000000000000ffff" sampleWorld /\
  fst (handle (ProductById "00000000000000000000ffff") sampleWorld) = Ok tt /\
  w_response (snd (handle (ProductById "00000000000000000000ffff") sampleWorld))
  = Some (mkResponse 200 "text/html; charset=utf-8" (BText "Product not found.")).
Proof.
  assert (H1 : idle sampleWorld) by reflexivity.
  assert (H2 : matchesNone Product "00000000000000000000ffff" sampleWorld)
    by (intros d [<-|[]] E; vm_compute in E; discriminate E).
  exact (conj H1 (conj H2
           (not_found_is_a_plain_200 Product "00000000000000000000ffff"
              sampleWorld H1 H2))).
Defined.

(** A list route over a reachable database answers every document of its
    collection. *)
Lemma list_all (w : World) (m : Model) :
  w_conn w = Connected -> idle w ->
  fst (handle (listOf m) w) = Ok tt /\
  w_response (snd (handle (listOf m) w))
  = Some (mkResponse 200 "application/json; charset=utf-8"
            (BJson (JArr (map toJSON (docsOf m w))))).
Proof.
  intros Hconn Hidle.
  destruct m; unfold handle, listOf, handler, getProducts, getBrands, bind;
    rewrite (await_idle _ (setResponse None w) Hidle);
    unfold find_all; rewrite dbFind_eq; cbn [w_conn setResponse];
    rewrite Hconn; cbn; auto.
Qed.

(** C3. With the database reachable, [GET /products] answers a JSON array
    holding every stored product, one entry each: nothing is filtered out,
    cut off or paged. *)
Theorem list_products_returns_all (w : World) :
  w_conn w = Connected ->
  idle w ->
  fst (handle ListProducts w) = Ok tt /\
  w_response (snd (handle ListProducts w))
  = Some (mkResponse 200 "application/json; charset=utf-8"
            (BJson (JArr (map toJSON (w_products w))))) /\
  List.length (map toJSON (w_products w)) = List.length (w_products w).
Proof.
  intros Hconn Hidle.
  destruct (list_all w Product Hconn Hidle) as [Hok Hresp].
  repeat split; [exact Hok|exact Hresp|apply length_map].
Qed.

Lemma list_products_returns_all_witness :
  w_conn sampleWorld = Connected /\
  idle sampleWorld /\
  fst (handle ListProducts sampleWorld) = Ok tt /\
  w_response (snd (handle ListProducts sampleWorld))
  = Some (mkResponse 200 "application/json; charset=utf-8"
            (BJson (JArr (map toJSON (w_products sampleWorld))))) /\
  List.length (map toJSON (w_products sampleWorld))
  = List.length (w_products sampleWorld).
Proof.
  exact (conj eq_refl (conj eq_refl
           (list_products_returns_all sampleWorld eq_refl eq_refl))).
Defined.

(** C8. Whatever the route and whatever the outcome, handling a request
    leaves both collections as they were. *)
Theorem routes_leave_the_store_alone (r : Route) (w : World) :
  idle w ->
  w_products (snd (handle r w)) = w_products w /\
  w_brands (snd (handle r w)) = w_brands w.
Proof.
  intros Hidle.
  destruct (keeps_handle (w_products w) (w_brands w) r w) as (P & B & _).
  - repeat split. exact Hidle.
  - split; assumption.
Qed.

Lemma routes_leave_the_store_alone_witness :
  idle sampleWorld /\
  w_products (snd (handle (ProductById "not-an-id") sampleWorld))
  = w_products sampleWorld /\
  w_brands (snd (handle (ProductById "not-an-id") sampleWorld))
  = w_brands sampleWorld.
Proof.
  exact (conj eq_refl
           (routes_leave_the_store_alone (ProductById "not-an-id") sampleWorld
              eq_refl)).
Defined.

(** C10. With the database out of reach, the [find] of a list route throws;
    nothing catches it: the handler ends with that error and no response has
    been written. *)
Theorem list_routes_do_not_recover (m : Model) (w : World) :
  w_conn w = Disconnected ->
  fst (handle (listOf m) w) = Throw (DatabaseUnavailable "find") /\
  w_response (snd (handle (listOf m) w)) = None.
Proof.
  intros Hconn.
  set (w0 := setResponse None w).
  pose proof (settle_ok w0) as Hok.
  pose proof (settle_frame w0) as F. cbn zeta in F. destruct F as (Hc & Hr & _).
  change (w_conn w0) with (w_conn w) in Hc.
  change (w_response w0) with (@None Response) in Hr.
  destruct m; unfold handle, listOf, handler, getProducts, getBrands;
    fold w0; unfold await, bind;
    destruct (settle w0) as [o w1]; cbn [fst snd] in Hok, Hc, Hr; subst o;
    unfold find_all; rewrite dbFind_eq, Hc, Hconn; cbn; auto.
Qed.

Lemma list_routes_do_not_recover_witness :
  w_conn (freshProcess [] [] 0%N 0%Z eager) = Disconnected /\
  fst (handle ListBrands (freshProcess [] [] 0%N 0%Z eager))
  = Throw (DatabaseUnavailable "find") /\
  w_response (snd (handle ListBrands (freshProcess [] [] 0%N 0%Z eager))) = None.
Proof.
  exact (conj eq_refl
           (list_routes_do_not_recover Brand (freshProcess [] [] 0%N 0%Z eager) eq_refl)).
Defined.

(* ================================================================== *)
(** * The connection *)
(* ================================================================== *)

Lemma dbSettled_connected (net : Network) (w : World) :
  net databaseUri = ConnectOk ->
  dbSettled net w
  = (Ok tt,
     setTrace (w_trace w ++ [EConsoleLog [LStr "Successfully connected to MongoDB"]])
       (setConn Connected w)).
Proof.
  intros H. unfold dbSettled, connectSettles, tryCatch, bind, console_log, emit.
  rewrite H. reflexivity.
Qed.

Lemma dbSettled_refused (net : Network) (msg : string) (w : World) :
  net databaseUri = ConnectRefused msg ->
  dbSettled net w
  = (Ok tt,
     setTrace (w_trace w ++ [EConsoleError [LStr "Connection error"; LStr msg]]) w).
Proof.
  intros H. unfold dbSettled, connectSettles, tryCatch, bind, console_error, emit.
  rewrite H. reflexivity.
Qed.

Lemma serverStart_connected (env : Env) (net : Network) (w : World) :
  net databaseUri = ConnectOk ->
  serverStart env net w
  = (Ok tt,
     setTrace (w_trace w ++ [EConnect databaseUri;
                             EListen (PORT env);
                             EConsoleLog [LStr ("Express server listening on port "
                                                ++ PORT env)];
                             EConsoleLog [LStr "Successfully connected to MongoDB"]])
       (setConn Connected w)).
Proof.
  intros H. unfold serverStart, dbModule, mongoose_connect, bind, console_log, emit.
  rewrite (dbSettled_connected net _ H).
  cbn. rewrite <- !app_assoc. reflexivity.
Qed.

Lemma serverStart_refused (env : Env) (net : Network) (msg : string) (w : World) :
  net databaseUri = ConnectRefused msg ->
  serverStart env net w
  = (Ok tt,
     setTrace (w_trace w ++ [EConnect databaseUri;
                             EListen (PORT env);
                             EConsoleLog [LStr ("Express server listening on port "
                                                ++ PORT env)];
                             EConsoleError [LStr "Connection error"; LStr msg]])
       w).
Proof.
  intros H. unfold serverStart, dbModule, mongoose_connect, bind, console_log, emit.
  rewrite (dbSettled_refused net msg _ H).
  cbn. rewrite <- !app_assoc. reflexivity.
Qed.

(** The seed script once the attempt to connect has settled. *)
Lemma seedScript_connected (net : Network) (w : World) :
  net databaseUri = ConnectOk ->
  seedScript net w
  = run (setTrace (w_trace w ++ [EConnect databaseUri;
                                 EConsoleLog [LStr "Successfully connected to MongoDB"]])
           (setConn Connected w)).
Proof.
  intros H. unfold seedScript, dbModule, mongoose_connect, bind at 1, emit.
  unfold bind at 1. rewrite (dbSettled_connected net _ H).
  cbn. rewrite <- !app_assoc. reflexivity.
Qed.

Lemma seedScript_refused (net : Network) (msg : string) (w : World) :
  net databaseUri = ConnectRefused msg ->
  seedScript net w
  = run (setTrace (w_trace w ++ [EConnect databaseUri;
                                 EConsoleError [LStr "Connection error"; LStr msg]])
           w).
Proof.
  intros H. unfold seedScript, dbModule, mongoose_connect, bind at 1, emit.
  unfold bind at 1. rewrite (dbSettled_refused net msg _ H).
  cbn. rewrite <- !app_assoc. reflexivity.
Qed.

(** C9. A starting server calls [mongoose.connect] once, with
    [mongodb://127.0.0.1:27017/productsDatabase] whatever the environment
    holds, and start-up completes with the server listening whether or not
    the database answers.  If the attempt succeeds the confirmation is
    logged and nothing is written with [console.error].  If it is refused
    the error is logged with its message, the confirmation is not, there
    is no second attempt, and every later query fails when it is made. *)
Theorem connection_is_attempted_once
    (env : Env) (net : Network) (ps bs : list StoredDoc) (o : ObjectId.t) (now : Z)
    (sched : nat -> bool) :
  let start := serverStart env net (freshProcess ps bs o now sched) in
  fst start = Ok tt /\
  connects (w_trace (snd start)) = ["mongodb://127.0.0.1:27017/productsDatabase"] /\
  listens (w_trace (snd start)) = [PORT env] /\
  match net "mongodb://127.0.0.1:27017/productsDatabase" with
  | ConnectOk =>
      w_conn (snd start) = Connected /\
      In (EConsoleLog [LStr "Successfully connected to MongoDB"])
         (w_trace (snd start)) /\
      errorLines (w_trace (snd start)) = []
  | ConnectRefused msg =>
      w_conn (snd start) = Disconnected /\
      errorLines (w_trace (snd start)) = [[LStr "Connection error"; LStr msg]] /\
      ~ In (EConsoleLog [LStr "Successfully connected to MongoDB"])
           (w_trace (snd start)) /\
      (forall m, fst (await (find_all m) (snd start))
                 = Throw (DatabaseUnavailable "find")) /\
      (forall m id, exists e, fst (await (findById m id) (snd start)) = Throw e)
  end.
Proof.
  cbn zeta.
  change "mongodb://127.0.0.1:27017/productsDatabase" with databaseUri.
  destruct (net databaseUri) as [|msg] eqn:Hnet.
  - rewrite (serverStart_connected env net _ Hnet). cbn. tauto.
  - rewrite (serverStart_refused env net msg _ Hnet). cbn [fst snd].
    do 5 (split; [reflexivity|]). split; [|split].
    + cbn. intros [H|[H|[H|[H|[]]]]]; discriminate H.
    + intros m. rewrite await_idle by reflexivity. reflexivity.
    + intros m id. rewrite await_idle by reflexivity.
      unfold findById. destruct (ObjectId.fromString id); eexists; reflexivity.
Qed.

(* ================================================================== *)
(** * Casting and validation *)
(* ================================================================== *)

Lemma getField_castPaths_other (paths : list (string * PathDef)) (obj : Obj) (k : string) :
  ~ In k (map fst paths) -> getField k (fst (castPaths paths obj)) = VUndefined.
Proof.
  induction paths as [|[k0 def] rest IH]; intros Hk; cbn [castPaths].
  - reflexivity.
  - cbn [map fst In] in Hk.
    assert (Hne : String.eqb k k0 = false)
      by (apply String.eqb_neq; intros ->; apply Hk; now left).
    assert (Hrest : ~ In k (map fst rest)) by tauto.
    specialize (IH Hrest).
    destruct (castPaths rest obj) as [fields errs]. cbn [fst] in IH.
    destruct (getField k0 obj); cbn [fst]; try exact IH;
      destruct (cast (p_type def) _); cbn [fst getField]; rewrite ?Hne; exact IH.
Qed.

Lemma getField_castPaths (paths : list (string * PathDef)) (obj : Obj)
    (k : string) (def : PathDef) :
  NoDup (map fst paths) ->
  pathDef k paths = Some def ->
  getField k (fst (castPaths paths obj)) = castOf def (getField k obj).
Proof.
  induction paths as [|[k0 d0] rest IH]; intros Hnd Hdef; cbn [pathDef] in Hdef.
  - discriminate.
  - cbn [map fst] in Hnd. inversion Hnd as [|? ? Hnotin Hnd']; subst.
    cbn [castPaths].
    destruct (String.eqb k k0) eqn:E.
    + apply String.eqb_eq in E. subst k0. injection Hdef as ->.
      pose proof (getField_castPaths_other rest obj k Hnotin) as Hother.
      destruct (castPaths rest obj) as [fields errs]. cbn [fst] in Hother.
      unfold castOf.
      destruct (getField k obj); cbn [fst]; try exact Hother;
        destruct (cast (p_type def) _); cbn [fst getField];
        rewrite ?String.eqb_refl; auto.
    + specialize (IH Hnd' Hdef).
      destruct (castPaths rest obj) as [fields errs]. cbn [fst] in IH.
      destruct (getField k0 obj); cbn [fst]; try exact IH;
        destruct (cast (p_type d0) _); cbn [fst getField]; rewrite ?E; exact IH.
Qed.

Lemma missingRequired_nil (paths : list (string * PathDef)) (fields : Obj) :
  missingRequired paths fields = [] ->
  forall k def, In (k, def) paths -> p_required def = true ->
                checkRequired (p_type def) (getField k fields) = true.
Proof.
  induction paths as [|[k0 d0] rest IH]; intros Hnil k def Hin Hreq.
  - destruct Hin.
  - cbn [missingRequired] in Hnil.
    destruct (p_required d0 && negb (checkRequired (p_type d0) (getField k0 fields)))
      eqn:E; [discriminate|].
    destruct Hin as [Heq|Hin].
    + injection Heq as -> ->. rewrite Hreq in E. cbn in E.
      now apply negb_false_iff in E.
    + now apply IH.
Qed.

Lemma missingRequired_in (paths : list (string * PathDef)) (fields : Obj)
    (k : string) (def : PathDef) :
  In (k, def) paths -> p_required def = true ->
  checkRequired (p_type def) (getField k fields) = false ->
  In k (missingRequired paths fields).
Proof.
  induction paths as [|[k0 d0] rest IH]; intros Hin Hreq Hchk.
  - destruct Hin.
  - cbn [missingRequired].
    destruct Hin as [Heq|Hin].
    + injection Heq as -> ->. rewrite Hreq, Hchk. cbn. now left.
    + destruct (p_required d0 && negb (checkRequired (p_type d0) (getField k0 fields)));
        [right|]; now apply IH.
Qed.

Lemma checkRequired_string (v : jsval) :
  checkRequired TString v = true -> nonEmptyString v.
Proof.
  destruct v; cbn; try discriminate.
  intros H. exists s. split; [reflexivity|].
  apply negb_true_iff, String.eqb_neq in H. exact H.
Qed.

Lemma blank_castOf_string (def : PathDef) (v : jsval) :
  p_type def = TString -> blank v ->
  checkRequired TString (castOf def v) = false.
Proof.
  intros Hty [->|[->| ->]]; unfold castOf; rewrite ?Hty; reflexivity.
Qed.

(** A document that validates holds a non-empty string at each of its
    model's required paths. *)
Lemma valid_docOk (m : Model) (d : Document) (now : Z) :
  validationErrors (modelSchema m) d = [] ->
  docOk m (stored (modelSchema m) now d).
Proof.
  unfold validationErrors. intros H.
  apply app_eq_nil in H as [_ H].
  pose proof (missingRequired_nil _ _ H) as R.
  destruct m; cbn [docOk]; unfold productOk, brandOk; cbn [stored sd_fields];
    repeat split; apply checkRequired_string;
    match goal with
    | |- context [getField ?k _] =>
        apply (R k (mkPath TString true None)); [cbn; tauto|reflexivity]
    end.
Qed.

(** An input with a blank required field builds a document that does not
    validate. *)
Lemma violates_invalid (m : Model) (obj : Obj) (id : ObjectId.t) :
  violates m obj ->
  validationErrors (modelSchema m) (buildDocument (modelSchema m) id obj) <> [].
Proof.
  intros Hv.
  assert (exists k, In (k, mkPath TString true None) (s_paths (modelSchema m))
                    /\ pathDef k (s_paths (modelSchema m)) = Some (mkPath TString true None)
                    /\ blank (getField k obj)) as (k & Hin & Hdef & Hblank).
  { destruct m; cbn [violates] in Hv.
    - destruct Hv as [H|[H|H]];
        [exists "title"|exists "description"|exists "price"];
        (split; [cbn; tauto|split; [reflexivity|exact H]]).
    - destruct Hv as [H|H]; [exists "name"|exists "url"];
        (split; [cbn; tauto|split; [reflexivity|exact H]]). }
  assert (Hnd : NoDup (map fst (s_paths (modelSchema m)))).
  { destruct m; cbn; repeat constructor; cbn; intuition discriminate. }
  unfold validationErrors, buildDocument.
  pose proof (getField_castPaths _ obj k _ Hnd Hdef) as G.
  destruct (castPaths (s_paths (modelSchema m)) obj) as [fields errs].
  cbn [fst] in G. cbn [d_castErrors d_fields].
  intros E. apply app_eq_nil in E as [_ E].
  assert (Hk : In k (missingRequired (s_paths (modelSchema m)) fields)).
  { apply (missingRequired_in _ _ k _ Hin eq_refl).
    rewrite G. now apply blank_castOf_string. }
  rewrite E in Hk. destruct Hk.
Qed.

(* ================================================================== *)
(** * Writes keep the required fields *)
(* ================================================================== *)

Lemma storeOk_same (w w' : World) :
  w_products w' = w_products w -> w_brands w' = w_brands w ->
  storeOk w -> storeOk w'.
Proof. unfold storeOk. intros -> ->. tauto. Qed.

Lemma storeOk_add (m : Model) (ds : list StoredDoc) (w : World) :
  Forall (docOk m) ds -> storeOk w -> storeOk (setDocs m ds w).
Proof.
  unfold storeOk. intros Hds [Hp Hb]. destruct m; cbn; auto.
Qed.

Lemma docsOf_ok (m : Model) (w : World) :
  storeOk w -> Forall (docOk m) (docsOf m w).
Proof. intros [Hp Hb]. destruct m; assumption. Qed.

Lemma keepsOk_generateId : preserves storeOk generateId.
Proof. intros w H. exact H. Qed.

Lemma keepsOk_new (m : Model) (obj : Obj) : preserves storeOk (new_ m obj).
Proof.
  unfold new_. apply preserves_bind; [apply keepsOk_generateId|].
  intros; apply preserves_ret.
Qed.

Lemma keepsOk_save_detached (m : Model) (d : Document) :
  preserves storeOk (save_detached m d).
Proof. intros w H. exact H. Qed.

Lemma keepsOk_emit (e : Event) : preserves storeOk (emit e).
Proof. intros w H. exact H. Qed.

Lemma keepsOk_dbInsertOne (m : Model) (d : StoredDoc) :
  docOk m d -> preserves storeOk (dbInsertOne m d).
Proof.
  intros Hd w H. unfold dbInsertOne.
  destruct (w_conn w); [exact H|].
  match goal with |- context [if ?b then _ else _] => destruct b end; cbn [snd].
  - exact H.
  - apply storeOk_add; [|exact H].
    apply Forall_app. split; [|now constructor].
    apply (docsOf_ok m) in H. destruct m; exact H.
Qed.

Lemma keepsOk_performSave (m : Model) (d : Document) :
  preserves storeOk (performSave m d).
Proof.
  intros w H. unfold performSave.
  destruct (validationErrors (modelSchema m) d) eqn:E.
  - apply keepsOk_dbInsertOne; [|exact H]. now apply valid_docOk.
  - exact H.
Qed.

Lemma keepsOk_settleEach (q : list Pending) : preserves storeOk (settleEach q).
Proof.
  induction q as [|[m d] q IH]; cbn [settleEach].
  - apply preserves_ret.
  - apply preserves_bind; [intros w H; exact H|].
    intros go. apply preserves_bind.
    + destruct go; [|apply preserves_ret].
      apply preserves_bind; [|intros; apply preserves_ret].
      apply preserves_tryCatch; [apply keepsOk_performSave|].
      intros; apply keepsOk_emit.
    + intros kept. apply preserves_bind; [exact IH|].
      intros; apply preserves_ret.
Qed.

Lemma keepsOk_settle : preserves storeOk settle.
Proof.
  unfold settle. intros w H.
  apply (preserves_bind storeOk (settleEach (w_inflight w))
           (fun kept w' => (Ok tt, setInflight kept w')));
    [apply keepsOk_settleEach|intros kept w' H'; exact H'|exact H].
Qed.

Lemma keepsOk_await {A} (op : M A) :
  preserves storeOk op -> preserves storeOk (await op).
Proof.
  intros H. unfold await. apply preserves_bind; [apply keepsOk_settle|].
  intros; exact H.
Qed.

Lemma insertOrdered_Forall (P : StoredDoc -> Prop) (ds : list StoredDoc) :
  forall coll, Forall P coll -> Forall P ds -> Forall P (fst (insertOrdered ds coll)).
Proof.
  induction ds as [|d ds IH]; intros coll Hc Hd; cbn [insertOrdered].
  - exact Hc.
  - inversion Hd; subst.
    destruct (hasId (sd_id d) coll); [exact Hc|].
    apply IH; [|assumption].
    apply Forall_app. split; [assumption|now constructor].
Qed.

Lemma keepsOk_dbInsertMany (m : Model) (ds : list StoredDoc) :
  Forall (docOk m) ds -> preserves storeOk (dbInsertMany m ds).
Proof.
  intros Hds w H. rewrite dbInsertMany_eq.
  destruct (w_conn w); [exact H|].
  pose proof (insertOrdered_Forall (docOk m) ds (docsOf m w)) as F.
  destruct (insertOrdered ds _) as [coll [e|]]; cbn [fst snd] in *;
    (apply storeOk_add; [|exact H]); apply F; auto;
    apply (docsOf_ok m) in H; destruct m; exact H.
Qed.

Lemma firstInvalid_none (s : Schema) (ds : list Document) :
  firstInvalid s ds = None -> Forall (fun d => validationErrors s d = []) ds.
Proof.
  induction ds as [|d ds IH]; cbn [firstInvalid]; intros H.
  - constructor.
  - destruct (validationErrors s d) eqn:E; [|discriminate].
    constructor; auto.
Qed.

Lemma keepsOk_newAll (m : Model) (objs : list Obj) : preserves storeOk (newAll m objs).
Proof.
  induction objs as [|obj objs IH]; cbn [newAll].
  - apply preserves_ret.
  - apply preserves_bind; [apply keepsOk_new|]. intros d.
    apply preserves_bind; [exact IH|]. intros; apply preserves_ret.
Qed.

Lemma keepsOk_insertMany (m : Model) (objs : list Obj) :
  preserves storeOk (insertMany m objs).
Proof.
  unfold insertMany. apply preserves_bind; [apply keepsOk_newAll|].
  intros docs. destruct (firstInvalid (modelSchema m) docs) eqn:E.
  - apply preserves_throw.
  - intros w H.
    apply (preserves_bind storeOk
             (dbInsertMany m (map (stored (modelSchema m) (w_now w)) docs))
             (fun _ => ret (map (stored (modelSchema m) (w_now w)) docs)));
      [|intros; apply preserves_ret|exact H].
    apply keepsOk_dbInsertMany.
    apply firstInvalid_none in E.
    apply Forall_map. eapply Forall_impl; [|exact E].
    intros d Hd. now apply valid_docOk.
Qed.

Lemma keepsOk_write (op : Write) : preserves storeOk (write op).
Proof.
  destruct op as [m obj|m obj|m objs]; cbn [write].
  - apply preserves_bind; [apply keepsOk_new|]. intros d.
    apply preserves_bind; [apply keepsOk_emit|]. intros _.
    apply keepsOk_await, keepsOk_performSave.
  - apply preserves_bind; [apply keepsOk_new|]. intros d.
    apply keepsOk_save_detached.
  - apply preserves_bind; [apply keepsOk_await, keepsOk_insertMany|].
    intros; apply preserves_ret.
Qed.

Lemma keepsOk_writes (ops : list Write) : preserves storeOk (writes ops).
Proof.
  induction ops as [|op ops IH]; cbn [writes].
  - apply keepsOk_settle.
  - apply preserves_bind; [|intros; exact IH].
    apply preserves_tryCatch; [apply keepsOk_write|].
    intros; apply preserves_ret.
Qed.

Lemma buildDocument_id (s : Schema) (id : ObjectId.t) (obj : Obj) :
  d_id (buildDocument s id obj) = id.
Proof. unfold buildDocument. destruct (castPaths (s_paths s) obj). reflexivity. Qed.

Lemma buildDocument_fields (s : Schema) (id : ObjectId.t) (obj : Obj) :
  d_fields (buildDocument s id obj) = fst (castPaths (s_paths s) obj).
Proof. unfold buildDocument. destruct (castPaths (s_paths s) obj). reflexivity. Qed.

(** [new Model(obj)] never throws and touches nothing but the generator. *)
Lemma new_spec (m : Model) (obj : Obj) (w : World) :
  new_ m obj w
  = (Ok (buildDocument (modelSchema m) (ObjectId.step (w_nextOid w) 0) obj),
     setNextOid (N.succ (w_nextOid w)) w).
Proof. reflexivity. Qed.

Lemma newAll_spec (m : Model) (objs : list Obj) :
  forall w, exists docs w1,
    newAll m objs w = (Ok docs, w1) /\
    Forall2 (fun obj d => exists id, ObjectId.wf id /\
                                   d = buildDocument (modelSchema m) id obj)
      objs docs /\
    w_products w1 = w_products w /\ w_brands w1 = w_brands w /\
    w_conn w1 = w_conn w /\ w_inflight w1 = w_inflight w /\
    w_response w1 = w_response w.
Proof.
  induction objs as [|obj objs IH]; intros w; cbn [newAll].
  - exists [], w. repeat split. constructor.
  - unfold bind. rewrite new_spec.
    destruct (IH (setNextOid (N.succ (w_nextOid w)) w))
      as (docs & w1 & E & F & Hp & Hb & Hc & Hi & Hr).
    rewrite E. eexists _, w1. split; [reflexivity|].
    split; [|cbn in *; tauto].
    constructor; [|exact F].
    eexists. split; [apply step_wf|reflexivity].
Qed.

Lemma firstInvalid_some (s : Schema) (ds : list Document) :
  Exists (fun d => validationErrors s d <> []) ds ->
  exists paths, firstInvalid s ds = Some paths.
Proof.
  induction 1 as [d ds H|d ds H IH]; cbn [firstInvalid].
  - destruct (validationErrors s d); [congruence|]. eexists; reflexivity.
  - destruct (validationErrors s d); [exact IH|]. eexists; reflexivity.
Qed.

(** An awaited [save] of a document built from a violating input throws a
    validation error and stores nothing. *)
Lemma save_rejects (m : Model) (obj : Obj) (w : World) :
  violates m obj -> idle w ->
  exists paths,
    fst (write (WSave m obj) w) = Throw (ValidationError (modelName m) paths) /\
    w_products (snd (write (WSave m obj) w)) = w_products w /\
    w_brands (snd (write (WSave m obj) w)) = w_brands w.
Proof.
  intros Hv Hidle. cbn [write]. unfold bind. rewrite new_spec.
  unfold save, bind, emit. rewrite await_idle by exact Hidle.
  unfold performSave.
  pose proof (violates_invalid m obj (ObjectId.step (w_nextOid w) 0) Hv) as Hne.
  destruct (validationErrors _ _) as [|p paths]; [congruence|].
  exists (p :: paths). cbn. auto.
Qed.

(** A batch holding one violating input is refused as a whole. *)
Lemma insertMany_rejects (m : Model) (objs : list Obj) (w : World) :
  Exists (violates m) objs -> idle w ->
  exists paths,
    fst (write (WInsertMany m objs) w) = Throw (ValidationError (modelName m) paths) /\
    w_products (snd (write (WInsertMany m objs) w)) = w_products w /\
    w_brands (snd (write (WInsertMany m objs) w)) = w_brands w.
Proof.
  intros Hv Hidle. cbn [write]. unfold bind.
  rewrite await_idle by exact Hidle.
  unfold insertMany, bind.
  destruct (newAll_spec m objs w) as (docs & w1 & E & F & Hp & Hb & _).
  rewrite E.
  assert (Hex : Exists (fun d => validationErrors (modelSchema m) d <> []) docs).
  { clear E. induction F as [|obj d objs docs Hd F IH].
    - inversion Hv.
    - inversion Hv as [? ? H|? ? H]; subst.
      + left. destruct Hd as (id & _ & ->). now apply violates_invalid.
      + right. now apply IH. }
  destruct (firstInvalid_some _ _ Hex) as (paths & ->).
  exists paths. cbn. auto.
Qed.

(** C4. A write whose input leaves [title], [description] or [price] of a
    product, or [name] or [url] of a brand, absent, null or empty is refused
    with a validation error and stores nothing; and after any sequence of
    writes through the schemas every stored product and brand still holds
    non-empty strings in those fields. *)
Theorem required_fields_hold (w : World) (ops : list Write) :
  storeOk w ->
  storeOk (snd (writes ops w)) /\
  (forall m obj, violates m obj -> idle w ->
     exists paths,
       fst (write (WSave m obj) w) = Throw (ValidationError (modelName m) paths) /\
       w_products (snd (write (WSave m obj) w)) = w_products w /\
       w_brands (snd (write (WSave m obj) w)) = w_brands w) /\
  (forall m objs, Exists (violates m) objs -> idle w ->
     exists paths,
       fst (write (WInsertMany m objs) w)
       = Throw (ValidationError (modelName m) paths) /\
       w_products (snd (write (WInsertMany m objs) w)) = w_products w /\
       w_brands (snd (write (WInsertMany m objs) w)) = w_brands w).
Proof.
  intros Hok. split; [|split].
  - apply keepsOk_writes. exact Hok.
  - intros m obj. apply save_rejects.
  - intros m objs. apply insertMany_rejects.
Qed.

Lemma required_fields_hold_witness :
  storeOk sampleSeedProcess /\
  storeOk (snd (writes [ WSave Brand [("name", VStr "Apple"); ("url", VStr "")];
                         WInsertMany Product [sampleInput] ]
                  sampleSeedProcess)) /\
  exists paths,
    fst (write (WSave Brand [("name", VStr "Apple"); ("url", VStr "")])
           sampleSeedProcess)
    = Throw (ValidationError "Brand" paths) /\
    w_products (snd (write (WSave Brand [("name", VStr "Apple"); ("url", VStr "")])
                       sampleSeedProcess)) = [] /\
    w_brands (snd (write (WSave Brand [("name", VStr "Apple"); ("url", VStr "")])
                     sampleSeedProcess)) = [].
Proof.
  assert (H : storeOk sampleSeedProcess) by (split; constructor).
  destruct (required_fields_hold sampleSeedProcess
              [ WSave Brand [("name", VStr "Apple"); ("url", VStr "")];
                WInsertMany Product [sampleInput] ] H) as (Hok & Hsave & _).
  split; [exact H|]. split; [exact Hok|].
  apply (Hsave Brand [("name", VStr "Apple"); ("url", VStr "")]).
  - right. right. right. reflexivity.
  - reflexivity.
Defined.

(* ================================================================== *)
(** * Creating a product *)
(* ================================================================== *)

Lemma eqb_empty_false (s : string) : s <> "" -> String.eqb s "" = false.
Proof. intros H. now apply String.eqb_neq. Qed.

(** The document built from a product input whose three required fields are
    non-empty strings validates, whatever identifier or absence its [brand]
    is. *)
Lemma product_input_valid (obj : Obj) (id : ObjectId.t) (t d p : string) :
  getField "title" obj = VStr t -> t <> "" ->
  getField "description" obj = VStr d -> d <> "" ->
  getField "price" obj = VStr p -> p <> "" ->
  (getField "brand" obj = VUndefined \/ exists b, getField "brand" obj = VOid b) ->
  validationErrors productSchema (buildDocument productSchema id obj) = [] /\
  getField "title" (d_fields (buildDocument productSchema id obj)) = VStr t /\
  getField "description" (d_fields (buildDocument productSchema id obj)) = VStr d /\
  getField "price" (d_fields (buildDocument productSchema id obj)) = VStr p /\
  getField "brand" (d_fields (buildDocument productSchema id obj))
  = getField "brand" obj.
Proof.
  intros Ht Hte Hd Hde Hp Hpe Hb.
  apply eqb_empty_false in Hte, Hde, Hpe.
  unfold validationErrors, buildDocument.
  cbn [s_paths productSchema castPaths].
  rewrite Ht, Hd, Hp.
  destruct Hb as [Hb|[b Hb]]; rewrite Hb; cbn; rewrite Hte, Hde, Hpe; cbn; auto.
Qed.

(** C5. A product input that leaves [_id], [createdAt], [updatedAt] and
    [__v] to the library and whose [title], [description] and [price] are
    non-empty strings is stored, as a batch of one or by [save], whether its
    [brand] is absent or is an identifier, and whatever the brands collection
    holds: the identifier is not looked up.  The stored document carries the
    [brand] it was given. *)
Theorem product_creation_ignores_brand
    (w : World) (obj : Obj) (t d p : string) :
  w_conn w = Connected ->
  idle w ->
  hasId (ObjectId.step (w_nextOid w) 0) (w_products w) = false ->
  bare obj ->
  getField "title" obj = VStr t -> t <> "" ->
  getField "description" obj = VStr d -> d <> "" ->
  getField "price" obj = VStr p -> p <> "" ->
  (getField "brand" obj = VUndefined \/ exists b, getField "brand" obj = VOid b) ->
  exists doc,
    getField "brand" (sd_fields doc) = getField "brand" obj /\
    fst (await (insertMany Product [obj]) w) = Ok [doc] /\
    w_products (snd (await (insertMany Product [obj]) w))
    = (w_products w ++ [doc])%list /\
    fst (write (WSave Product obj) w) = Ok tt /\
    w_products (snd (write (WSave Product obj) w)) = (w_products w ++ [doc])%list.
Proof.
  intros Hconn Hidle Hnew _ Ht Hte Hd Hde Hp Hpe Hb.
  destruct (product_input_valid obj (ObjectId.step (w_nextOid w) 0) t d p
              Ht Hte Hd Hde Hp Hpe Hb) as (Hval & _ & _ & _ & Hbrand).
  set (doc := buildDocument productSchema (ObjectId.step (w_nextOid w) 0) obj) in *.
  exists (stored productSchema (w_now w) doc).
  split; [exact Hbrand|].
  assert (Hid : sd_id (stored productSchema (w_now w) doc)
                = ObjectId.step (w_nextOid w) 0)
    by (cbn; apply buildDocument_id).
  cbn [write]. unfold save, bind, emit.
  rewrite !new_spec.
  rewrite !await_idle by exact Hidle.
  unfold insertMany, bind. cbn [newAll]. unfold bind, ret. rewrite !new_spec.
  cbn [modelSchema]. fold doc.
  cbn [firstInvalid]. unfold performSave. cbn [modelSchema]. rewrite Hval.
  rewrite dbInsertMany_eq. unfold dbInsertOne.
  cbn [w_conn w_now setNextOid setTrace docsOf w_products map insertOrdered].
  rewrite Hconn, Hid, Hnew.
  cbn. auto.
Qed.

Lemma product_creation_ignores_brand_witness :
  hasId 99%N (w_brands sampleWorld) = false /\
  bare sampleInput /\
  exists doc,
    getField "brand" (sd_fields doc) = getField "brand" sampleInput /\
    fst (await (insertMany Product [sampleInput]) sampleWorld) = Ok [doc] /\
    w_products (snd (await (insertMany Product [sampleInput]) sampleWorld))
    = (w_products sampleWorld ++ [doc])%list /\
    fst (write (WSave Product sampleInput) sampleWorld) = Ok tt /\
    w_products (snd (write (WSave Product sampleInput) sampleWorld))
    = (w_products sampleWorld ++ [doc])%list.
Proof.
  assert (Hbare : bare sampleInput) by (repeat split).
  split; [reflexivity|]. split; [exact Hbare|].
  apply (product_creation_ignores_brand sampleWorld sampleInput
           "Vespa Primavera"
           "https://www.vespa.com/us_EN/vespa-models/primavera.html" "3000").
  - reflexivity.
  - reflexivity.
  - reflexivity.
  - exact Hbare.
  - reflexivity.
  - discriminate.
  - reflexivity.
  - discriminate.
  - reflexivity.
  - discriminate.
  - right. exists 99%N. reflexivity.
Defined.

(* ================================================================== *)
(** * The seed script *)
(* ================================================================== *)

Lemma step_inj (o i j : N) :
  (i < ObjectId.modulus)%N -> (j < ObjectId.modulus)%N ->
  ObjectId.step o i = ObjectId.step o j -> i = j.
Proof.
  intros Hi Hj E. destruct (N.eq_dec i j) as [|Hne]; [assumption|].
  pose proof (step_neq o i j Hi Hj Hne) as F.
  rewrite E, N.eqb_refl in F. discriminate.
Qed.

Lemma NoDup_steps (o : N) (ks : list N) :
  NoDup ks -> Forall (fun k => (k < ObjectId.modulus)%N) ks ->
  NoDup (map (ObjectId.step o) ks).
Proof.
  induction 1 as [|k ks Hnotin Hnd IH]; intros Hlt; cbn [map].
  - constructor.
  - inversion Hlt as [|? ? Hk Hks]; subst. constructor; [|now apply IH].
    intros Hin. apply in_map_iff in Hin as (j & E & Hj).
    rewrite Forall_forall in Hks.
    apply step_inj in E; [|now apply Hks|assumption].
    subst j. contradiction.
Qed.

Lemma insertOrdered_ok (ds : list StoredDoc) :
  forall coll,
    NoDup (map sd_id ds) ->
    (forall d, In d ds -> hasId (sd_id d) coll = false) ->
    insertOrdered ds coll = ((coll ++ ds)%list, None).
Proof.
  induction ds as [|d ds IH]; intros coll Hnd Hnew; cbn [insertOrdered].
  - now rewrite app_nil_r.
  - cbn [map] in Hnd. inversion Hnd as [|? ? Hnotin Hnd']; subst.
    rewrite (Hnew d) by now left.
    rewrite IH; [now rewrite <- app_assoc|assumption|].
    intros d' Hd'. rewrite hasId_app, (Hnew d') by now right.
    cbn. rewrite orb_false_r. apply N.eqb_neq. intros E.
    apply Hnotin. rewrite E. now apply in_map.
Qed.

Ltac world_eval :=
  cbv [setInflight setNextOid setTrace setConn setResponse setDocs setTick docsOf
       w_products w_brands w_conn w_nextOid w_now w_inflight w_trace w_response
       w_schedule w_tick].

Lemma pick_constant {A} (sched : nat -> bool) (b : bool) (xs : list A) :
  (forall n, sched n = b) ->
  forall t, pick sched t b xs = xs /\ pick sched t (negb b) xs = [].
Proof.
  intros H. induction xs as [|x xs IH]; intros t; cbn [pick].
  - split; reflexivity.
  - rewrite H. destruct (IH (S t)) as [-> ->]. destruct b; split; reflexivity.
Qed.

(** Brand saves in flight over a reachable database: those the schedule
    picks are appended to the collection in the order they were issued, the
    others stay in flight. *)
Lemma settleEach_brands (docs : list Document) :
  forall ps bs o now q tr resp sched t,
    Forall (fun d => validationErrors brandSchema d = []) docs ->
    NoDup (map d_id docs) ->
    (forall d, In d docs -> hasId (d_id d) bs = false) ->
    settleEach (map (PSave Brand) docs)
      (mkWorld ps bs Connected o now q tr resp sched t)
    = (Ok (map (PSave Brand) (pick sched t false docs)),
       mkWorld ps (bs ++ map (stored brandSchema now) (pick sched t true docs))
         Connected o now q tr resp sched (List.length docs + t)).
Proof.
  induction docs as [|d docs IH]; intros ps bs o now q tr resp sched t Hval Hnd Hnew;
    cbn [map settleEach pick List.length].
  - unfold ret. now rewrite app_nil_r.
  - inversion Hval as [|? ? Hd Hval']; subst.
    cbn [map] in Hnd. inversion Hnd as [|? ? Hnotin Hnd']; subst.
    unfold bind at 1. unfold decide. world_eval.
    destruct (sched t) eqn:St; cbn [Bool.eqb].
    + unfold bind at 1. unfold bind at 1. unfold tryCatch, performSave.
      cbn [modelSchema]. rewrite Hd. unfold dbInsertOne. world_eval.
      cbn [stored sd_id]. rewrite (Hnew d) by now left.
      unfold ret at 1. unfold bind. cbn [setDocs].
      world_eval.
      rewrite IH; [|assumption|assumption|].
      * unfold ret. cbn [app map]. rewrite <- app_assoc, Nat.add_succ_r.
        reflexivity.
      * intros d' Hd'. rewrite hasId_app, (Hnew d') by now right.
        cbn. rewrite orb_false_r. apply N.eqb_neq. intros E.
        apply Hnotin. rewrite E. now apply in_map.
    + unfold bind, ret at 1.
      rewrite IH; [|assumption|assumption|].
      * unfold ret. cbn [app map]. rewrite Nat.add_succ_r. reflexivity.
      * intros d' Hd'. apply Hnew. now right.
Qed.

(** The whole run, for every schedule: what the script calls is fixed, the
    seven products are stored, and of the five brands exactly those are
    stored whose save settled while the script waited for [insertMany]; the
    connection is closed with the others still in flight. *)
Lemma run_result (ps bs : list StoredDoc) (o : N) (now : Z)
    (tr : list Event) (resp : option Response) (sched : nat -> bool) (t : nat) :
  (forall k, (k < 12)%N -> hasId (ObjectId.step o k) ps = false
                           /\ hasId (ObjectId.step o k) bs = false) ->
  run (mkWorld ps bs Connected o now [] tr resp sched t)
  = (Ok tt,
     mkWorld (ps ++ seededProducts o now)
       (bs ++ map (stored brandSchema now) (pick sched t true (seedDrafts o)))
       Disconnected (o + 12)%N now
       (map (PSave Brand) (pick sched t false (seedDrafts o)))
       (tr ++ seedEvents o now) resp sched (5 + t)).
Proof.
  intros Hnew.
  assert (Hsmall : forall k, (k < 12)%N -> (k < ObjectId.modulus)%N)
    by (unfold ObjectId.modulus; intros; lia).
  unfold run, main, bind, new_, bind, generateId, save_detached, bind, emit, ret.
  world_eval.
  cbn -[ObjectId.step await insertMany N.succ].
  rewrite !step_succ.
  unfold await, bind, settle, bind. world_eval.
  change [PSave Brand
            {| d_id := ObjectId.step o 0;
               d_fields := [("name", VStr "Apple");
                            ("url", VStr "https://www.apple.com")];
               d_castErrors := [] |};
          PSave Brand
            {| d_id := ObjectId.step o (N.succ 0);
               d_fields := [("name", VStr "Vespa");
                            ("url", VStr "https://www.vespa.com")];
               d_castErrors := [] |};
          PSave Brand
            {| d_id := ObjectId.step o (N.succ (N.succ 0));
               d_fields := [("name", VStr "New Balance");
                            ("url", VStr "https://www.newbalance.com")];
               d_castErrors := [] |};
          PSave Brand
            {| d_id := ObjectId.step o (N.succ (N.succ (N.succ 0)));
               d_fields := [("name", VStr "Tribe");
                            ("url", VStr "https://www.tribebicycles.com")];
               d_castErrors := [] |};
          PSave Brand
            {| d_id := ObjectId.step o (N.succ (N.succ (N.succ (N.succ 0))));
               d_fields := [("name", VStr "Stumptown");
                            ("url", VStr "https://www.stumptowncoffee.com")];
               d_castErrors := [] |}]
    with (map (PSave Brand) (seedDrafts o)).
  rewrite settleEach_brands.
  2:{ repeat constructor. }
  2:{ apply (NoDup_steps o [0; 1; 2; 3; 4]%N).
      - repeat constructor; cbn; intuition discriminate.
      - repeat constructor; apply Hsmall; lia. }
  2:{ intros d Hd. cbn [In seedDrafts] in Hd.
      repeat (destruct Hd as [<-|Hd]; [apply Hnew; cbn; lia|]). destruct Hd. }
  world_eval.
  unfold insertMany, bind. cbn [newAll seedProducts].
  unfold bind, new_, bind, generateId, ret. world_eval.
  cbn -[ObjectId.step N.succ hasId insertOrdered stored N.add pick seedDrafts
        dbInsertMany].
  rewrite !step_succ.
  rewrite dbInsertMany_eq. world_eval.
  rewrite insertOrdered_ok.
  2:{ apply (NoDup_steps o [5; 6; 7; 8; 9; 10; 11]%N).
      - repeat constructor; cbn; intuition discriminate.
      - repeat constructor; apply Hsmall; lia. }
  2:{ intros d Hd. cbn [In map] in Hd.
      repeat (destruct Hd as [<-|Hd]; [apply Hnew; cbn; lia|]). destruct Hd. }
  unfold console_log, db_close, emit, ret. world_eval.
  replace (N.succ (N.succ (N.succ (N.succ (N.succ (N.succ (N.succ
            (N.succ (N.succ (N.succ (N.succ (N.succ o))))))))))))
    with (o + 12)%N by lia.
  unfold seedEvents. rewrite <- !app_assoc.
  reflexivity.
Qed.

(** C2. The five [save()] calls of [main] are statements whose promises are
    dropped; the [await]s of the source sit in front of [new Brand(...)].
    In a run where none of these writes has settled by the time
    [insertMany] resolves, the script still runs to its end: it has called
    [save] five times, sent the batch, logged and closed the connection, the
    seven products are stored, and no brand has been inserted: the five
    writes are still in flight behind a closed connection. *)
Theorem seed_closes_with_brands_in_flight (w : World) :
  w_conn w = Connected ->
  idle w ->
  nextUnused 12%N w ->
  (forall n, w_schedule w n = false) ->
  fst (run w) = Ok tt /\
  w_trace (snd (run w))
  = (w_trace w
     ++ map (ESave Brand) (seedDrafts (w_nextOid w))
     ++ [ EInsertMany Product (seededProducts (w_nextOid w) (w_now w));
          EConsoleLog [LStr "Created products!"];
          EClose ])%list /\
  w_products (snd (run w))
  = (w_products w ++ seededProducts (w_nextOid w) (w_now w))%list /\
  w_conn (snd (run w)) = Disconnected /\
  w_brands (snd (run w)) = w_brands w /\
  w_inflight (snd (run w)) = map (PSave Brand) (seedDrafts (w_nextOid w)).
Proof.
  destruct w as [ps bs c o now q tr resp sched t]. unfold idle, nextUnused, unused.
  cbn [w_conn w_inflight w_nextOid w_products w_brands w_now w_trace w_schedule].
  intros -> -> Hnew Hlazy.
  rewrite (run_result ps bs o now tr resp sched t Hnew).
  destruct (pick_constant sched false (seedDrafts o) Hlazy t) as [Hkept Hdone].
  cbn [negb] in Hdone.
  cbn [fst snd w_conn w_inflight w_products w_brands w_trace].
  rewrite Hkept, Hdone. cbn [map]. rewrite app_nil_r.
  repeat split.
Qed.

Lemma seed_closes_with_brands_in_flight_witness :
  nextUnused 12%N sampleSeedProcess /\
  fst (run sampleSeedProcess) = Ok tt /\
  w_trace (snd (run sampleSeedProcess))
  = (map (ESave Brand) (seedDrafts 1000%N)
     ++ [ EInsertMany Product (seededProducts 1000%N 1700000000000%Z);
          EConsoleLog [LStr "Created products!"];
          EClose ])%list /\
  w_products (snd (run sampleSeedProcess))
  = seededProducts 1000%N 1700000000000%Z /\
  w_conn (snd (run sampleSeedProcess)) = Disconnected /\
  w_brands (snd (run sampleSeedProcess)) = [] /\
  w_inflight (snd (run sampleSeedProcess)) = map (PSave Brand) (seedDrafts 1000%N).
Proof.
  assert (H : nextUnused 12%N sampleSeedProcess)
    by (intros k _; split; reflexivity).
  exact (conj H (seed_closes_with_brands_in_flight sampleSeedProcess
                   eq_refl eq_refl H (fun _ => eq_refl))).
Defined.

(** When every save has settled by the time [insertMany] resolves, the five
    brands are stored; the model lists them in the order their saves were
    issued. *)
Lemma seed_when_saves_settle (w : World) :
  w_conn w = Connected ->
  idle w ->
  nextUnused 12%N w ->
  (forall n, w_schedule w n = true) ->
  fst (run w) = Ok tt /\
  w_products (snd (run w))
  = (w_products w ++ seededProducts (w_nextOid w) (w_now w))%list /\
  w_brands (snd (run w))
  = (w_brands w ++ seededBrands (w_nextOid w) (w_now w))%list /\
  idle (snd (run w)).
Proof.
  destruct w as [ps bs c o now q tr resp sched t]. unfold idle, nextUnused, unused.
  cbn [w_conn w_inflight w_nextOid w_products w_brands w_now w_trace w_schedule].
  intros -> -> Hnew Heager.
  rewrite (run_result ps bs o now tr resp sched t Hnew).
  destruct (pick_constant sched true (seedDrafts o) Heager t) as [Hdone Hkept].
  cbn [negb] in Hkept.
  cbn [fst snd w_conn w_inflight w_products w_brands w_trace].
  rewrite Hkept, Hdone.
  repeat split.
Qed.

(* ================================================================== *)
(** * Reading back what was written *)
(* ================================================================== *)

Lemma find_app {A} (f : A -> bool) (xs ys : list A) :
  find f (xs ++ ys) = match find f xs with Some x => Some x | None => find f ys end.
Proof.
  induction xs as [|x xs IH]; cbn; [reflexivity|].
  destruct (f x); [reflexivity|exact IH].
Qed.

Lemma insertOrdered_inv (ds : list StoredDoc) :
  forall coll coll',
    insertOrdered ds coll = (coll', None) ->
    coll' = (coll ++ ds)%list /\
    forall d, In d ds -> find (fun x => N.eqb (sd_id x) (sd_id d)) coll' = Some d.
Proof.
  induction ds as [|d0 ds IH]; intros coll coll' H; cbn [insertOrdered] in H.
  - injection H as <-. split; [now rewrite app_nil_r|intros d []].
  - destruct (hasId (sd_id d0) coll) eqn:Hnew; [discriminate|].
    apply IH in H as [-> Hfind]. split; [now rewrite <- app_assoc|].
    intros d [<-|Hd]; [|now apply Hfind].
    rewrite !find_app.
    apply find_none_iff in Hnew. rewrite Hnew. cbn. now rewrite N.eqb_refl.
Qed.

Lemma lookupProp_fields (k : string) (j : json) (fields : Obj)
    (rest : list (string * json)) :
  fieldToJSON (k, getField k fields) = [(k, j)] ->
  lookupProp k (flat_map fieldToJSON fields ++ rest) = Some j.
Proof.
  induction fields as [|[k0 v0] fields IH]; cbn [getField flat_map]; intros H.
  - discriminate.
  - destruct (String.eqb k k0) eqn:E.
    + apply String.eqb_eq in E. subst k0. rewrite H. cbn.
      now rewrite String.eqb_refl.
    + rewrite <- app_assoc.
      unfold fieldToJSON at 1. cbn [fst snd].
      destruct v0; cbn [app lookupProp]; rewrite ?E; now apply IH.
Qed.

Lemma jsonField_toJSON (k : string) (j : json) (d : StoredDoc) :
  String.eqb k "_id" = false ->
  fieldToJSON (k, getField k (sd_fields d)) = [(k, j)] ->
  jsonField k (toJSON d) = Some j.
Proof.
  intros Hk H. unfold toJSON, jsonField. cbn [app lookupProp]. rewrite Hk.
  now apply lookupProp_fields.
Qed.

(** A by-id request whose id reads as the [_id] of a stored document is
    answered with that document. *)
Lemma byId_found (m : Model) (id : string) (d : StoredDoc) (w : World) :
  idle w -> w_conn w = Connected ->
  ObjectId.fromString id = Some (sd_id d) ->
  find (fun x => N.eqb (sd_id x) (sd_id d)) (docsOf m w) = Some d ->
  fst (handle (byId m id) w) = Ok tt /\
  w_response (snd (handle (byId m id) w))
  = Some (mkResponse 200 "application/json; charset=utf-8" (BJson (toJSON d))).
Proof.
  intros Hidle Hconn Hid Hfind.
  set (w0 := setResponse None w).
  assert (Hidle0 : idle w0) by exact Hidle.
  assert (F : findById m id w0
              = (Ok (Some d), setTrace (w_trace w0 ++ [EFindOne m (sd_id d)]) w0)).
  { unfold findById. rewrite Hid, dbFindOne_eq.
    change (w_conn w0) with (w_conn w). rewrite Hconn.
    replace (docsOf m w0) with (docsOf m w) by (destruct m; reflexivity).
    now rewrite Hfind. }
  destruct m; unfold handle, byId, handler, getProductById, getBrandById;
    fold w0; unfold tryCatch, bind;
    rewrite (await_idle _ w0 Hidle0), F; cbn; auto.
Qed.

Lemma newAll_now (m : Model) (objs : list Obj) :
  forall w, w_now (snd (newAll m objs w)) = w_now w.
Proof.
  induction objs as [|obj objs IH]; intros w; cbn [newAll]; [reflexivity|].
  unfold bind. rewrite new_spec.
  specialize (IH (setNextOid (N.succ (w_nextOid w)) w)).
  destruct (newAll m objs _) as [[docs|e] w1]; exact IH.
Qed.

Lemma insertMany_inv (m : Model) (objs : list Obj) (w w' : World)
    (docs : list StoredDoc) :
  insertMany m objs w = (Ok docs, w') ->
  w_conn w' = Connected /\ w_inflight w' = w_inflight w /\
  (exists ds,
      Forall2 (fun obj d => exists id, ObjectId.wf id /\
                                     d = buildDocument (modelSchema m) id obj)
        objs ds /\
      docs = map (stored (modelSchema m) (w_now w)) ds) /\
  docsOf m w' = (docsOf m w ++ docs)%list /\
  forall d, In d docs ->
            find (fun x => N.eqb (sd_id x) (sd_id d)) (docsOf m w') = Some d.
Proof.
  unfold insertMany, bind. intros H.
  pose proof (newAll_now m objs w) as Hnow.
  destruct (newAll_spec m objs w) as (ds & w1 & E & F & Hp & Hb & Hc & Hi & Hr).
  rewrite E in H, Hnow. cbn [snd] in Hnow.
  destruct (firstInvalid (modelSchema m) ds); [discriminate|].
  rewrite dbInsertMany_eq in H. unfold ret in H.
  destruct (w_conn w1) eqn:C; [discriminate|].
  destruct (insertOrdered _ _) as [coll [e|]] eqn:IO; [discriminate|].
  injection H as <- <-.
  apply insertOrdered_inv in IO as [-> Hfind].
  rewrite Hnow in *.
  assert (D : docsOf m w1 = docsOf m w) by (destruct m; assumption).
  repeat split.
  - destruct m; cbn; congruence.
  - destruct m; cbn; congruence.
  - exists ds. split; [exact F|reflexivity].
  - destruct m; cbn in *; congruence.
  - intros d Hd. specialize (Hfind d Hd).
    destruct m; cbn in *; exact Hfind.
Qed.

Lemma Forall2_nth_error {A B} (R : A -> B -> Prop) (xs : list A) (ys : list B) :
  Forall2 R xs ys ->
  forall i x y, nth_error xs i = Some x -> nth_error ys i = Some y -> R x y.
Proof.
  induction 1 as [|x0 y0 xs ys H0 H IH]; intros [|i] x y Hx Hy; cbn in *;
    try discriminate.
  - congruence.
  - eauto.
Qed.

(** C6. A product stored by [insertMany], alone or in a batch, from an input
    whose [brand] is the identifier [b], then fetched with
    [GET /products/:id] under the identifier it was given, comes back as a
    JSON object whose [brand] is the hexadecimal form of [b], and that form
    reads back as [b]. *)
Theorem brand_reference_round_trip
    (w w' : World) (objs : list Obj) (docs : list StoredDoc)
    (i : nat) (obj : Obj) (doc : StoredDoc) (b : ObjectId.t) :
  ObjectId.wf b ->
  idle w ->
  await (insertMany Product objs) w = (Ok docs, w') ->
  nth_error objs i = Some obj ->
  nth_error docs i = Some doc ->
  getField "brand" obj = VOid b ->
  exists j,
    fst (handle (ProductById (ObjectId.toHexString (sd_id doc))) w') = Ok tt /\
    w_response (snd (handle (ProductById (ObjectId.toHexString (sd_id doc))) w'))
    = Some (mkResponse 200 "application/json; charset=utf-8" (BJson j)) /\
    jsonField "brand" j = Some (JStr (ObjectId.toHexString b)) /\
    ObjectId.fromString (ObjectId.toHexString b) = Some b.
Proof.
  intros Hb Hidle Hcreate Hobj Hdoc Hbrand.
  rewrite await_idle in Hcreate by exact Hidle.
  apply insertMany_inv in Hcreate as (Hconn & Hinfl & (ds & F & ->) & _ & Hfind).
  rewrite nth_error_map in Hdoc.
  destruct (nth_error ds i) as [d|] eqn:Hd; [|discriminate].
  injection Hdoc as <-.
  destruct (Forall2_nth_error _ _ _ F i obj d Hobj Hd) as (id & Hid & ->).
  set (doc := stored (modelSchema Product) (w_now w)
                (buildDocument (modelSchema Product) id obj)) in *.
  assert (Hsid : sd_id doc = id) by (cbn; apply buildDocument_id).
  assert (Hin : In doc (map (stored (modelSchema Product) (w_now w)) ds)).
  { apply in_map. eapply nth_error_In. exact Hd. }
  destruct (byId_found Product (ObjectId.toHexString (sd_id doc)) doc w')
    as [Hok Hresp].
  - unfold idle in *. congruence.
  - exact Hconn.
  - apply fromString_toHexString_wf. now rewrite Hsid.
  - apply Hfind. exact Hin.
  - exists (toJSON doc). repeat split; try assumption.
    + apply jsonField_toJSON; [reflexivity|].
      cbn [doc stored sd_fields]. rewrite buildDocument_fields.
      rewrite (getField_castPaths _ obj "brand" (mkPath TObjectId false (Some "Brand"))).
      * rewrite Hbrand. reflexivity.
      * cbn. repeat constructor; cbn; intuition discriminate.
      * reflexivity.
    + now apply fromString_toHexString_wf.
Qed.

Lemma brand_reference_round_trip_witness :
  let created := await (insertMany Product [sampleInput]) sampleWorld in
  let doc := productDoc 12%N 1700000000000%Z "Vespa Primavera"
               "https://www.vespa.com/us_EN/vespa-models/primavera.html"
               "3000" 99%N in
  created = (Ok [doc], snd created) /\
  exists j,
    fst (handle (ProductById (ObjectId.toHexString (sd_id doc))) (snd created))
    = Ok tt /\
    w_response (snd (handle (ProductById (ObjectId.toHexString (sd_id doc)))
                       (snd created)))
    = Some (mkResponse 200 "application/json; charset=utf-8" (BJson j)) /\
    jsonField "brand" j = Some (JStr (ObjectId.toHexString 99%N)) /\
    ObjectId.fromString (ObjectId.toHexString 99%N) = Some 99%N.
Proof.
  cbn zeta.
  set (doc := productDoc 12%N 1700000000000%Z "Vespa Primavera"
                "https://www.vespa.com/us_EN/vespa-models/primavera.html"
                "3000" 99%N).
  assert (H : await (insertMany Product [sampleInput]) sampleWorld
              = (Ok [doc], snd (await (insertMany Product [sampleInput]) sampleWorld)))
    by reflexivity.
  exact (conj H
           (brand_reference_round_trip sampleWorld
              (snd (await (insertMany Product [sampleInput]) sampleWorld))
              [sampleInput] [doc] 0 sampleInput doc 99%N
              eq_refl eq_refl H eq_refl eq_refl eq_refl)).
Defined.

(* ================================================================== *)
(** * From an empty database to the first answers *)
(* ================================================================== *)

Lemma seedScript_result (net : Network) (o : ObjectId.t) (now : Z)
    (sched : nat -> bool) :
  net databaseUri = ConnectOk ->
  snd (seedScript net (freshProcess [] [] o now sched))
  = mkWorld (seededProducts o now)
      (map (stored brandSchema now) (pick sched 0 true (seedDrafts o)))
      Disconnected (o + 12)%N now
      (map (PSave Brand) (pick sched 0 false (seedDrafts o)))
      ([EConnect databaseUri;
        EConsoleLog [LStr "Successfully connected to MongoDB"]]
       ++ seedEvents o now)
      None sched 5.
Proof.
  intros Hnet. rewrite (seedScript_connected net _ Hnet).
  unfold freshProcess. world_eval. cbn [app].
  rewrite run_result; [reflexivity|].
  intros k _. split; reflexivity.
Qed.

(** A server started on what one run of the seed left behind: it lists the
    seven products, it lists the brands whose save had settled, and it finds
    the first product under its identifier. *)
Lemma serve_after_seed
    (net : Network) (env : Env) (o1 o2 : ObjectId.t) (now1 now2 : Z)
    (sched1 sched2 : nat -> bool) :
  net databaseUri = ConnectOk ->
  let seeded := snd (seedScript net (freshProcess [] [] o1 now1 sched1)) in
  let server :=
    snd (serverStart env net
           (freshProcess (w_products seeded) (w_brands seeded) o2 now2 sched2)) in
  (exists items,
      w_response (snd (handle ListProducts server))
      = Some (mkResponse 200 "application/json; charset=utf-8" (BJson (JArr items)))
      /\ List.length items = 7) /\
  w_response (snd (handle ListBrands server))
  = Some (mkResponse 200 "application/json; charset=utf-8"
            (BJson (JArr (map toJSON
                            (map (stored brandSchema now1)
                               (pick sched1 0 true (seedDrafts o1))))))) /\
  (exists first rest j,
      w_products seeded = first :: rest /\
      w_response (snd (handle (ProductById (ObjectId.toHexString (sd_id first)))
                         server))
      = Some (mkResponse 200 "application/json; charset=utf-8" (BJson j)) /\
      jsonField "title" j = Some (JStr "Apple AirPods") /\
      jsonField "price" j = Some (JStr "250")).
Proof.
  intros Hnet. cbn zeta.
  rewrite (seedScript_result net o1 now1 sched1 Hnet).
  cbn [w_products w_brands].
  rewrite (serverStart_connected env net _ Hnet).
  cbn [snd].
  set (server := setTrace _ _).
  assert (Hidle : idle server) by reflexivity.
  assert (Hconn : w_conn server = Connected) by reflexivity.
  split; [|split].
  - destruct (list_all server Product Hconn Hidle) as [_ H].
    cbn [listOf] in H. rewrite H. eexists. split; reflexivity.
  - destruct (list_all server Brand Hconn Hidle) as [_ H].
    cbn [listOf] in H. rewrite H. reflexivity.
  - eexists _, _, _. split; [reflexivity|].
    cbn [sd_id productDoc].
    destruct (byId_found Product
                (ObjectId.toHexString (ObjectId.step o1 5))
                (productDoc (ObjectId.step o1 5) now1 "Apple AirPods"
                   "https://www.apple.com/airpods" "250" (ObjectId.step o1 0))
                server Hidle Hconn) as [_ Hresp].
    + apply fromString_toHexString_wf, step_wf.
    + change (docsOf Product server) with (seededProducts o1 now1).
      cbn [seededProducts find sd_id productDoc].
      now rewrite N.eqb_refl.
    + split; [exact Hresp|]. split; reflexivity.
Qed.

(** When every save of the seed had settled before the connection was
    closed, the end-to-end scenario goes as the specification has it. *)
Lemma seed_then_serve_when_saves_settle
    (net : Network) (env : Env) (o1 o2 : ObjectId.t) (now1 now2 : Z)
    (sched2 : nat -> bool) :
  net databaseUri = ConnectOk ->
  let seeded := snd (seedScript net (freshProcess [] [] o1 now1 eager)) in
  let server :=
    snd (serverStart env net
           (freshProcess (w_products seeded) (w_brands seeded) o2 now2 sched2)) in
  (exists items,
      w_response (snd (handle ListProducts server))
      = Some (mkResponse 200 "application/json; charset=utf-8" (BJson (JArr items)))
      /\ List.length items = 7) /\
  (exists items,
      w_response (snd (handle ListBrands server))
      = Some (mkResponse 200 "application/json; charset=utf-8" (BJson (JArr items)))
      /\ List.length items = 5) /\
  (exists first rest j,
      w_products seeded = first :: rest /\
      w_response (snd (handle (ProductById (ObjectId.toHexString (sd_id first)))
                         server))
      = Some (mkResponse 200 "application/json; charset=utf-8" (BJson j)) /\
      jsonField "title" j = Some (JStr "Apple AirPods") /\
      jsonField "price" j = Some (JStr "250")).
Proof.
  intros Hnet.
  destruct (serve_after_seed net env o1 o2 now1 now2 eager sched2 Hnet)
    as (Hp & Hb & Hfirst).
  split; [exact Hp|]. split; [|exact Hfirst].
  eexists. split; [exact Hb|reflexivity].
Qed.

(** C7. Seed an empty database in a run where the five saves, which [main]
    does not await, have not settled when [insertMany] resolves and [run]
    closes the connection; then start the server on it.  [GET /products]
    answers 7 entries and the first product is "Apple AirPods" at "250", but
    [GET /brands] answers an empty array, not 5 entries. *)
Theorem unsaved_brands_are_not_listed
    (net : Network) (env : Env) (o1 o2 : ObjectId.t) (now1 now2 : Z)
    (sched2 : nat -> bool) :
  net databaseUri = ConnectOk ->
  let seeded := snd (seedScript net (freshProcess [] [] o1 now1 lazy)) in
  let server :=
    snd (serverStart env net
           (freshProcess (w_products seeded) (w_brands seeded) o2 now2 sched2)) in
  (exists items,
      w_response (snd (handle ListProducts server))
      = Some (mkResponse 200 "application/json; charset=utf-8" (BJson (JArr items)))
      /\ List.length items = 7) /\
  w_response (snd (handle ListBrands server))
  = Some (mkResponse 200 "application/json; charset=utf-8" (BJson (JArr []))) /\
  (exists first rest j,
      w_products seeded = first :: rest /\
      w_response (snd (handle (ProductById (ObjectId.toHexString (sd_id first)))
                         server))
      = Some (mkResponse 200 "application/json; charset=utf-8" (BJson j)) /\
      jsonField "title" j = Some (JStr "Apple AirPods") /\
      jsonField "price" j = Some (JStr "250")).
Proof.
  intros Hnet.
  destruct (serve_after_seed net env o1 o2 now1 now2 lazy sched2 Hnet)
    as (Hp & Hb & Hfirst).
  split; [exact Hp|]. split; [exact Hb|exact Hfirst].
Qed.

Lemma unsaved_brands_are_not_listed_witness :
  let seeded := snd (seedScript sampleNetwork (freshProcess [] [] 1000%N 0%Z lazy)) in
  let server :=
    snd (serverStart sampleEnv sampleNetwork
           (freshProcess (w_products seeded) (w_brands seeded) 5000%N 60000%Z
              eager)) in
  sampleNetwork databaseUri = ConnectOk /\
  (exists items,
      w_response (snd (handle ListProducts server))
      = Some (mkResponse 200 "application/json; charset=utf-8" (BJson (JArr items)))
      /\ List.length items = 7) /\
  w_response (snd (handle ListBrands server))
  = Some (mkResponse 200 "application/json; charset=utf-8" (BJson (JArr []))) /\
  (exists first rest j,
      w_products seeded = first :: rest /\
      w_response (snd (handle (ProductById (ObjectId.toHexString (sd_id first)))
                         server))
      = Some (mkResponse 200 "application/json; charset=utf-8" (BJson j)) /\
      jsonField "title" j = Some (JStr "Apple AirPods") /\
      jsonField "price" j = Some (JStr "250")).
Proof.
  exact (conj eq_refl
           (unsaved_brands_are_not_listed sampleNetwork sampleEnv
              1000%N 5000%N 0%Z 60000%Z eager eq_refl)).
Defined.

(* ================================================================== *)
(** * More on the routes *)
(* ================================================================== *)

(** A list request handled by an idle process, spelled out. *)
Lemma listOf_eq (m : Model) (w : World) :
  idle w ->
  handle (listOf m) w
  = let w1 := setTrace (w_trace w ++ [EFind m]) (setResponse None w) in
    match w_conn w with
    | Disconnected => (Throw (DatabaseUnavailable "find"), w1)
    | Connected =>
        (Ok tt,
         setResponse
           (Some (mkResponse 200 "application/json; charset=utf-8"
                    (BJson (JArr (map toJSON (docsOf m w)))))) w1)
    end.
Proof.
  intros Hidle.
  assert (Hidle0 : idle (setResponse None w)) by exact Hidle.
  destruct m; unfold handle, listOf, handler, getProducts, getBrands, bind;
    rewrite (await_idle _ _ Hidle0); unfold find_all; rewrite dbFind_eq;
    cbn [w_conn setResponse]; destruct (w_conn w); reflexivity.
Qed.

(** A by-id request handled by an idle process, spelled out. *)
Lemma byId_eq (m : Model) (id : string) (w : World) :
  idle w ->
  handle (byId m id) w
  = let text := match m with
                | Product => "Product not found."
                | Brand => "Brand not found."
                end in
    let recover e w1 :=
      (Ok tt,
       setResponse (Some (mkResponse 200 "text/html; charset=utf-8" (BText text)))
         (setTrace (w_trace w1 ++ [EConsoleLog [LErr e]]) w1)) in
    match ObjectId.fromString id with
    | None => recover (CastError (modelName m) "_id" id) (setResponse None w)
    | Some o =>
        let w1 := setTrace (w_trace w ++ [EFindOne m o]) (setResponse None w) in
        match w_conn w with
        | Disconnected => recover (DatabaseUnavailable "findOne") w1
        | Connected =>
            match find (fun d => N.eqb (sd_id d) o) (docsOf m w) with
            | Some d =>
                (Ok tt,
                 setResponse
                   (Some (mkResponse 200 "application/json; charset=utf-8"
                            (BJson (toJSON d)))) w1)
            | None => recover (PlainError (modelName m ++ " not found")) w1
            end
        end
    end.
Proof.
  intros Hidle.
  assert (Hidle0 : idle (setResponse None w)) by exact Hidle.
  destruct m; unfold handle, byId, handler, getProductById, getBrandById,
    tryCatch, bind;
    rewrite (await_idle _ _ Hidle0); unfold findById;
    (destruct (ObjectId.fromString id) as [o|]; [|reflexivity]);
    rewrite dbFindOne_eq; cbn [w_conn setResponse];
    (destruct (w_conn w); [reflexivity|]);
    cbn [docsOf setResponse w_products w_brands];
    match goal with |- context [find ?f ?l] => destruct (find f l) end;
    reflexivity.
Qed.

(** X1. The root route and the two by-id routes never throw and always
    answer with status 200, whatever the id, the store, the connection and
    the writes in flight. *)
Theorem recovering_routes_always_answer (r : Route) (w : World) :
  (forall m, r <> listOf m) ->
  fst (handle r w) = Ok tt /\
  exists resp, w_response (snd (handle r w)) = Some resp /\ r_status resp = 200.
Proof.
  intros Hr. destruct r as [| |id| |id].
  - split; [reflexivity|]. eexists. split; reflexivity.
  - exfalso. apply (Hr Product). reflexivity.
  - unfold handle, handler, getProductById, tryCatch, bind.
    destruct (await (findById Product id) (setResponse None w)) as [[[d|]|e] w1];
      cbn; (split; [reflexivity|]); eexists; split; reflexivity.
  - exfalso. apply (Hr Brand). reflexivity.
  - unfold handle, handler, getBrandById, tryCatch, bind.
    destruct (await (findById Brand id) (setResponse None w)) as [[[d|]|e] w1];
      cbn; (split; [reflexivity|]); eexists; split; reflexivity.
Qed.

Lemma recovering_routes_always_answer_witness :
  (forall m, ProductById "not-an-id" <> listOf m) /\
  fst (handle (ProductById "not-an-id") sampleUnreachable) = Ok tt /\
  exists resp,
    w_response (snd (handle (ProductById "not-an-id") sampleUnreachable))
    = Some resp /\ r_status resp = 200.
Proof.
  assert (H : forall m, ProductById "not-an-id" <> listOf m)
    by (intros [] E; discriminate E).
  exact (conj H (recovering_routes_always_answer (ProductById "not-an-id")
                   sampleUnreachable H)).
Defined.

(** X2. With the database reachable, [GET /brands] answers one entry per
    stored brand, in the order of the collection: the entry at each position
    is the JSON form of the brand stored at that position, and it carries
    the brand's [_id] in hexadecimal. *)
Theorem list_brands_in_stored_order (w : World) (i : nat) (d : StoredDoc) :
  w_conn w = Connected ->
  idle w ->
  nth_error (w_brands w) i = Some d ->
  exists items,
    w_response (snd (handle ListBrands w))
    = Some (mkResponse 200 "application/json; charset=utf-8" (BJson (JArr items))) /\
    List.length items = List.length (w_brands w) /\
    nth_error items i = Some (toJSON d) /\
    jsonField "_id" (toJSON d) = Some (JStr (ObjectId.toHexString (sd_id d))).
Proof.
  intros Hconn Hidle Hd.
  destruct (list_all w Brand Hconn Hidle) as [_ H]. cbn [listOf docsOf] in H.
  exists (map toJSON (w_brands w)). split; [exact H|].
  split; [apply length_map|]. split; [now apply map_nth_error|reflexivity].
Qed.

Lemma list_brands_in_stored_order_witness :
  let d := brandDoc 0%N 1700000000000%Z "Apple" "https://www.apple.com" in
  w_conn sampleWorld = Connected /\
  idle sampleWorld /\
  nth_error (w_brands sampleWorld) 0 = Some d /\
  exists items,
    w_response (snd (handle ListBrands sampleWorld))
    = Some (mkResponse 200 "application/json; charset=utf-8" (BJson (JArr items))) /\
    List.length items = List.length (w_brands sampleWorld) /\
    nth_error items 0 = Some (toJSON d) /\
    jsonField "_id" (toJSON d) = Some (JStr (ObjectId.toHexString (sd_id d))).
Proof.
  exact (conj eq_refl (conj eq_refl (conj eq_refl
           (list_brands_in_stored_order sampleWorld 0
              (brandDoc 0%N 1700000000000%Z "Apple" "https://www.apple.com")
              eq_refl eq_refl eq_refl)))).
Defined.

Lemma find_unique (ds : list StoredDoc) (d : StoredDoc) :
  uniqueIds ds -> In d ds ->
  find (fun x => N.eqb (sd_id x) (sd_id d)) ds = Some d.
Proof.
  unfold uniqueIds. induction ds as [|x ds IH]; intros Hnd Hin; [destruct Hin|].
  cbn [map] in Hnd. inversion Hnd as [|? ? Hnotin Hnd']; subst.
  cbn [find]. destruct Hin as [->|Hin].
  - now rewrite N.eqb_refl.
  - destruct (N.eqb (sd_id x) (sd_id d)) eqn:E; [|now apply IH].
    apply N.eqb_eq in E. exfalso. apply Hnotin. rewrite E. now apply in_map.
Qed.

(** X3. In a collection whose [_id]s are distinct, every stored document is
    served by its by-id route under the hexadecimal form of its [_id], as
    its JSON form; and the list route of the collection answers an array
    that holds this same object. *)
Theorem stored_document_is_served (m : Model) (d : StoredDoc) (w : World) :
  w_conn w = Connected ->
  idle w ->
  uniqueIds (docsOf m w) ->
  In d (docsOf m w) ->
  ObjectId.wf (sd_id d) ->
  fst (handle (byId m (ObjectId.toHexString (sd_id d))) w) = Ok tt /\
  w_response (snd (handle (byId m (ObjectId.toHexString (sd_id d))) w))
  = Some (mkResponse 200 "application/json; charset=utf-8" (BJson (toJSON d))) /\
  exists items,
    w_response (snd (handle (listOf m) w))
    = Some (mkResponse 200 "application/json; charset=utf-8" (BJson (JArr items))) /\
    In (toJSON d) items.
Proof.
  intros Hconn Hidle Hu Hin Hwf.
  destruct (byId_found m (ObjectId.toHexString (sd_id d)) d w Hidle Hconn) as [H1 H2].
  - now apply fromString_toHexString_wf.
  - now apply find_unique.
  - split; [exact H1|]. split; [exact H2|].
    destruct (list_all w m Hconn Hidle) as [_ Hlist].
    exists (map toJSON (docsOf m w)). split; [exact Hlist|now apply in_map].
Qed.

Lemma stored_document_is_served_witness :
  let d := productDoc 5%N 1700000000000%Z "Apple AirPods"
             "https://www.apple.com/airpods" "250" 0%N in
  uniqueIds (docsOf Product sampleWorld) /\
  In d (docsOf Product sampleWorld) /\
  ObjectId.wf (sd_id d) /\
  fst (handle (byId Product (ObjectId.toHexString (sd_id d))) sampleWorld) = Ok tt /\
  w_response (snd (handle (byId Product (ObjectId.toHexString (sd_id d))) sampleWorld))
  = Some (mkResponse 200 "application/json; charset=utf-8" (BJson (toJSON d))) /\
  exists items,
    w_response (snd (handle (listOf Product) sampleWorld))
    = Some (mkResponse 200 "application/json; charset=utf-8" (BJson (JArr items))) /\
    In (toJSON d) items.
Proof.
  cbn zeta.
  assert (H1 : uniqueIds (docsOf Product sampleWorld))
    by (repeat constructor; intros []).
  assert (H2 : In (productDoc 5%N 1700000000000%Z "Apple AirPods"
                     "https://www.apple.com/airpods" "250" 0%N)
                  (docsOf Product sampleWorld))
    by (left; reflexivity).
  assert (H3 : ObjectId.wf 5%N) by reflexivity.
  exact (conj H1 (conj H2 (conj H3
           (stored_document_is_served Product
              (productDoc 5%N 1700000000000%Z "Apple AirPods"
                 "https://www.apple.com/airpods" "250" 0%N)
              sampleWorld eq_refl eq_refl H1 H2 H3)))).
Defined.



(** X5. A request only reads: whatever the route, the handler adds at most
    two events to what the process has done, each of them a query or a
    console line; it issues no write, opens and closes no connection and
    generates no identifier. *)
Theorem routes_only_read (r : Route) (w : World) :
  idle w ->
  exists es,
    w_trace (snd (handle r w)) = (w_trace w ++ es)%list /\
    forallb readsOnly es = true /\
    (List.length es <= 2)%nat /\
    w_conn (snd (handle r w)) = w_conn w /\
    w_nextOid (snd (handle r w)) = w_nextOid w /\
    idle (snd (handle r w)).
Proof.
  intros Hidle.
  assert (Hlist : forall m, exists es,
             w_trace (snd (handle (listOf m) w)) = (w_trace w ++ es)%list /\
             forallb readsOnly es = true /\ (List.length es <= 2)%nat /\
             w_conn (snd (handle (listOf m) w)) = w_conn w /\
             w_nextOid (snd (handle (listOf m) w)) = w_nextOid w /\
             idle (snd (handle (listOf m) w))).
  { intros m. exists [EFind m]. rewrite (listOf_eq m w Hidle). cbn zeta.
    destruct (w_conn w) eqn:C; cbn; repeat split; auto. }
  assert (Hby : forall m id, exists es,
             w_trace (snd (handle (byId m id) w)) = (w_trace w ++ es)%list /\
             forallb readsOnly es = true /\ (List.length es <= 2)%nat /\
             w_conn (snd (handle (byId m id) w)) = w_conn w /\
             w_nextOid (snd (handle (byId m id) w)) = w_nextOid w /\
             idle (snd (handle (byId m id) w))).
  { intros m id. rewrite (byId_eq m id w Hidle). cbn zeta.
    destruct (ObjectId.fromString id) as [o|].
    - destruct (w_conn w) eqn:C.
      + eexists [_; _]. cbn. rewrite <- app_assoc. repeat split; auto.
      + destruct (find _ _).
        * eexists [_]. cbn. repeat split; auto.
        * eexists [_; _]. cbn. rewrite <- app_assoc. repeat split; auto.
    - eexists [_]. cbn. repeat split; auto. }
  destruct r as [| |id| |id].
  - exists []. cbn. rewrite app_nil_r. repeat split; auto.
  - apply (Hlist Product).
  - apply (Hby Product id).
  - apply (Hlist Brand).
  - apply (Hby Brand id).
Qed.

Lemma routes_only_read_witness :
  idle sampleWorld /\
  exists es,
    w_trace (snd (handle (BrandById "not-an-id") sampleWorld))
    = (w_trace sampleWorld ++ es)%list /\
    forallb readsOnly es = true /\
    (List.length es <= 2)%nat /\
    w_conn (snd (handle (BrandById "not-an-id") sampleWorld)) = w_conn sampleWorld /\
    w_nextOid (snd (handle (BrandById "not-an-id") sampleWorld))
    = w_nextOid sampleWorld /\
    idle (snd (handle (BrandById "not-an-id") sampleWorld)).
Proof.
  exact (conj eq_refl (routes_only_read (BrandById "not-an-id") sampleWorld eq_refl)).
Defined.

(** X6. With the database out of reach, a by-id route answers its fixed
    "not found" text with status 200 for every id, also for the id of a
    document that is stored: the error of the query is caught like any
    other. *)
Theorem unreachable_database_reads_as_not_found
    (m : Model) (id : string) (w : World) :
  w_conn w = Disconnected ->
  fst (handle (byId m id) w) = Ok tt /\
  w_response (snd (handle (byId m id) w))
  = Some (mkResponse 200 "text/html; charset=utf-8"
            (BText (match m with
                    | Product => "Product not found."
                    | Brand => "Brand not found."
                    end))).
Proof.
  intros Hconn.
  set (w0 := setResponse None w).
  pose proof (settle_ok w0) as Hok.
  pose proof (settle_frame w0) as F. cbn zeta in F. destruct F as (Hc & _).
  change (w_conn w0) with (w_conn w) in Hc.
  destruct m; unfold handle, byId, handler, getProductById, getBrandById;
    fold w0; unfold tryCatch, await, bind;
    destruct (settle w0) as [o w1]; cbn [fst snd] in Hok, Hc; subst o;
    unfold findById; (destruct (ObjectId.fromString id) as [oid|];
                      [rewrite dbFindOne_eq, Hc, Hconn|]); cbn; auto.
Qed.

Lemma unreachable_database_reads_as_not_found_witness :
  w_conn sampleUnreachable = Disconnected /\
  hasId 5%N (w_products sampleUnreachable) = true /\
  fst (handle (byId Product (ObjectId.toHexString 5%N)) sampleUnreachable) = Ok tt /\
  w_response (snd (handle (byId Product (ObjectId.toHexString 5%N)) sampleUnreachable))
  = Some (mkResponse 200 "text/html; charset=utf-8" (BText "Product not found.")).
Proof.
  exact (conj eq_refl (conj eq_refl
           (unreachable_database_reads_as_not_found Product
              (ObjectId.toHexString 5%N) sampleUnreachable eq_refl))).
Defined.

(** What a request is answered depends on the two collections and on the
    connection, and on nothing else of the process. *)
Lemma handle_depends (r : Route) (w1 w2 : World) :
  idle w1 -> idle w2 ->
  w_products w1 = w_products w2 ->
  w_brands w1 = w_brands w2 ->
  w_conn w1 = w_conn w2 ->
  fst (handle r w1) = fst (handle r w2) /\
  w_response (snd (handle r w1)) = w_response (snd (handle r w2)).
Proof.
  intros I1 I2 Hp Hb Hc.
  assert (Hd : forall m, docsOf m w1 = docsOf m w2) by (intros []; assumption).
  assert (Hlist : forall m,
             fst (handle (listOf m) w1) = fst (handle (listOf m) w2) /\
             w_response (snd (handle (listOf m) w1))
             = w_response (snd (handle (listOf m) w2))).
  { intros m. rewrite (listOf_eq m w1 I1), (listOf_eq m w2 I2). cbn zeta.
    rewrite Hc, (Hd m). destruct (w_conn w2); split; reflexivity. }
  assert (Hby : forall m id,
             fst (handle (byId m id) w1) = fst (handle (byId m id) w2) /\
             w_response (snd (handle (byId m id) w1))
             = w_response (snd (handle (byId m id) w2))).
  { intros m id. rewrite (byId_eq m id w1 I1), (byId_eq m id w2 I2). cbn zeta.
    rewrite Hc, (Hd m).
    destruct (ObjectId.fromString id); [|split; reflexivity].
    destruct (w_conn w2); [split; reflexivity|].
    destruct (find _ _); split; reflexivity. }
  destruct r as [| |id| |id].
  - split; reflexivity.
  - apply (Hlist Product).
  - apply (Hby Product id).
  - apply (Hlist Brand).
  - apply (Hby Brand id).
Qed.

(** Over a reachable database no handler throws, and the connection stays
    as it is. *)
Lemma handle_connected (r : Route) (w : World) :
  w_conn w = Connected -> idle w ->
  fst (handle r w) = Ok tt /\ w_conn (snd (handle r w)) = Connected.
Proof.
  intros Hconn Hidle.
  assert (Hlist : forall m, fst (handle (listOf m) w) = Ok tt /\
                            w_conn (snd (handle (listOf m) w)) = Connected).
  { intros m. rewrite (listOf_eq m w Hidle). cbn zeta. rewrite Hconn.
    split; [reflexivity|exact Hconn]. }
  assert (Hby : forall m id, fst (handle (byId m id) w) = Ok tt /\
                             w_conn (snd (handle (byId m id) w)) = Connected).
  { intros m id. rewrite (byId_eq m id w Hidle). cbn zeta. rewrite Hconn.
    destruct (ObjectId.fromString id); [|split; [reflexivity|exact Hconn]].
    destruct (find _ _); split; try reflexivity; exact Hconn. }
  destruct r as [| |id| |id];
    [split; [reflexivity|exact Hconn]|apply (Hlist Product)|apply (Hby Product id)
    |apply (Hlist Brand)|apply (Hby Brand id)].
Qed.

Lemma serve_frame (rs : list Route) :
  forall w, w_conn w = Connected -> idle w ->
    fst (serve rs w) = Ok tt /\
    idle (snd (serve rs w)) /\
    w_products (snd (serve rs w)) = w_products w /\
    w_brands (snd (serve rs w)) = w_brands w /\
    w_conn (snd (serve rs w)) = Connected.
Proof.
  induction rs as [|r rs IH]; intros w Hconn Hidle; cbn [serve].
  - cbn. auto.
  - destruct (keeps_handle (w_products w) (w_brands w) r w) as (P & B & I).
    { repeat split. exact Hidle. }
    destruct (handle_connected r w Hconn Hidle) as [Hok C].
    unfold bind. destruct (handle r w) as [[[]|e] w1]; cbn [fst snd] in *;
      [|discriminate].
    destruct (IH w1 C I) as (Hok' & I' & P' & B' & C').
    repeat split; congruence.
Qed.

(** X7. Requests do not interfere: over a reachable database, after any
    sequence of requests has been handled, none of them has failed and a
    further request is answered exactly as it would have been before them. *)
Theorem requests_do_not_interfere (rs : list Route) (r : Route) (w : World) :
  w_conn w = Connected ->
  idle w ->
  fst (serve rs w) = Ok tt /\
  fst (handle r (snd (serve rs w))) = Ok tt /\
  w_response (snd (handle r (snd (serve rs w)))) = w_response (snd (handle r w)).
Proof.
  intros Hconn Hidle.
  destruct (serve_frame rs w Hconn Hidle) as (Hok & I & P & B & C).
  split; [exact Hok|]. split.
  - now apply handle_connected.
  - apply handle_depends; try assumption. congruence.
Qed.

Lemma requests_do_not_interfere_witness :
  w_conn sampleWorld = Connected /\
  idle sampleWorld /\
  fst (serve [ProductById "not-an-id"; ListBrands; Root] sampleWorld) = Ok tt /\
  fst (handle ListProducts
         (snd (serve [ProductById "not-an-id"; ListBrands; Root] sampleWorld)))
  = Ok tt /\
  w_response (snd (handle ListProducts
                     (snd (serve [ProductById "not-an-id"; ListBrands; Root]
                             sampleWorld))))
  = w_response (snd (handle ListProducts sampleWorld)).
Proof.
  exact (conj eq_refl (conj eq_refl
           (requests_do_not_interfere [ProductById "not-an-id"; ListBrands; Root]
              ListProducts sampleWorld eq_refl eq_refl))).
Defined.

(* ================================================================== *)
(** * Writing, then reading *)
(* ================================================================== *)

(** An awaited save from an idle process, spelled out. *)
Lemma save_eq (m : Model) (obj : Obj) (w : World) :
  idle w ->
  write (WSave m obj) w
  = let doc := buildDocument (modelSchema m) (ObjectId.step (w_nextOid w) 0) obj in
    let w1 := setTrace (w_trace w ++ [ESave m doc])
                (setNextOid (N.succ (w_nextOid w)) w) in
    match validationErrors (modelSchema m) doc with
    | [] =>
        match w_conn w with
        | Disconnected => (Throw (DatabaseUnavailable "insertOne"), w1)
        | Connected =>
            if hasId (sd_id (stored (modelSchema m) (w_now w) doc)) (docsOf m w)
            then (Throw (DuplicateKey (sd_id (stored (modelSchema m) (w_now w) doc))), w1)
            else (Ok tt, setDocs m (docsOf m w ++ [stored (modelSchema m) (w_now w) doc]) w1)
        end
    | p :: paths => (Throw (ValidationError (modelName m) (p :: paths)), w1)
    end.
Proof.
  intros Hidle. cbn [write]. unfold bind, save, bind, emit. rewrite new_spec.
  rewrite await_idle by exact Hidle.
  cbn zeta. unfold performSave.
  destruct (validationErrors _ _); [|reflexivity].
  unfold dbInsertOne. cbn [w_conn w_now setTrace setNextOid].
  destruct (w_conn w); [reflexivity|].
  replace (docsOf m (setTrace _ (setNextOid _ w))) with (docsOf m w)
    by (destruct m; reflexivity).
  reflexivity.
Qed.

(** An awaited save that succeeds from an idle process appended the stamped
    document to its collection, over a usable connection. *)
Lemma save_inv (m : Model) (obj : Obj) (w : World) :
  idle w ->
  fst (write (WSave m obj) w) = Ok tt ->
  let d := stored (modelSchema m) (w_now w)
             (buildDocument (modelSchema m) (ObjectId.step (w_nextOid w) 0) obj) in
  let w' := snd (write (WSave m obj) w) in
  validationErrors (modelSchema m)
    (buildDocument (modelSchema m) (ObjectId.step (w_nextOid w) 0) obj) = [] /\
  w_conn w = Connected /\
  hasId (sd_id d) (docsOf m w) = false /\
  docsOf m w' = (docsOf m w ++ [d])%list /\
  w_conn w' = Connected /\ idle w'.
Proof.
  intros Hidle. rewrite (save_eq m obj w Hidle). cbn zeta.
  destruct (validationErrors _ _) eqn:V; [|discriminate].
  destruct (w_conn w) eqn:C; [discriminate|].
  destruct (hasId _ (docsOf m w)) eqn:Hnew; [discriminate|].
  intros _. cbn [snd].
  repeat split; try assumption; destruct m; cbn; try assumption; reflexivity.
Qed.

(** X8. A brand built from an input that brings no [_id] of its own and
    saved with the save awaited is then served by [GET /brands/:id] under
    the identifier generated for it, with the [name] and [url] it was
    given. *)
Theorem brand_round_trip (w : World) (obj : Obj) (name url : string) :
  idle w ->
  getField "_id" obj = VUndefined ->
  getField "name" obj = VStr name ->
  getField "url" obj = VStr url ->
  fst (write (WSave Brand obj) w) = Ok tt ->
  let id := ObjectId.toHexString (ObjectId.step (w_nextOid w) 0) in
  let w' := snd (write (WSave Brand obj) w) in
  exists j,
    w_response (snd (handle (BrandById id) w'))
    = Some (mkResponse 200 "application/json; charset=utf-8" (BJson j)) /\
    jsonField "_id" j = Some (JStr id) /\
    jsonField "name" j = Some (JStr name) /\
    jsonField "url" j = Some (JStr url).
Proof.
  intros Hidle _ Hname Hurl Hok.
  destruct (save_inv Brand obj w Hidle Hok) as (_ & _ & Hnew & Hdocs & Hconn & Hidle').
  cbn zeta in *.
  set (d := stored (modelSchema Brand) (w_now w)
              (buildDocument (modelSchema Brand) (ObjectId.step (w_nextOid w) 0) obj)) in *.
  set (w' := snd (write (WSave Brand obj) w)) in *.
  assert (Hid : sd_id d = ObjectId.step (w_nextOid w) 0)
    by (cbn; apply buildDocument_id).
  destruct (byId_found Brand (ObjectId.toHexString (ObjectId.step (w_nextOid w) 0))
              d w' Hidle' Hconn) as [_ Hresp].
  - rewrite Hid. apply fromString_toHexString_wf, step_wf.
  - rewrite Hdocs, find_app.
    apply find_none_iff in Hnew. rewrite Hnew. cbn. now rewrite N.eqb_refl.
  - exists (toJSON d). split; [exact Hresp|].
    assert (Hnd : NoDup (map fst (s_paths brandSchema)))
      by (cbn; repeat constructor; cbn; intuition discriminate).
    split; [|split].
    + cbn [toJSON jsonField app lookupProp]. cbn [String.eqb Ascii.eqb Bool.eqb].
      now rewrite Hid.
    + apply jsonField_toJSON; [reflexivity|].
      cbn [d stored sd_fields modelSchema]. rewrite buildDocument_fields.
      rewrite (getField_castPaths _ obj "name" (mkPath TString true None) Hnd eq_refl).
      rewrite Hname. reflexivity.
    + apply jsonField_toJSON; [reflexivity|].
      cbn [d stored sd_fields modelSchema]. rewrite buildDocument_fields.
      rewrite (getField_castPaths _ obj "url" (mkPath TString true None) Hnd eq_refl).
      rewrite Hurl. reflexivity.
Qed.

Lemma brand_round_trip_witness :
  let id := ObjectId.toHexString (ObjectId.step (w_nextOid sampleWorld) 0) in
  let w' := snd (write (WSave Brand sampleBrandInput) sampleWorld) in
  fst (write (WSave Brand sampleBrandInput) sampleWorld) = Ok tt /\
  exists j,
    w_response (snd (handle (BrandById id) w'))
    = Some (mkResponse 200 "application/json; charset=utf-8" (BJson j)) /\
    jsonField "_id" j = Some (JStr id) /\
    jsonField "name" j = Some (JStr "Vespa") /\
    jsonField "url" j = Some (JStr "https://www.vespa.com").
Proof.
  exact (conj eq_refl
           (brand_round_trip sampleWorld sampleBrandInput
              "Vespa" "https://www.vespa.com"
              eq_refl eq_refl eq_refl eq_refl eq_refl)).
Defined.



(* ================================================================== *)
(** * Start-up *)
(* ================================================================== *)


(* ================================================================== *)
(** * More on the seed script *)
(* ================================================================== *)









(** X12. The seed script only adds: it clears nothing and looks for nothing
    that is already there.  Run a second time on the database a first run
    left, with identifiers of its own, it stores seven more products after
    the first seven, with the same titles and with [_id]s that differ from
    those of the first run, and every brand that was stored stays. *)
Theorem seeding_twice_duplicates (w1 w2 : World) :
  w_conn w1 = Connected -> idle w1 -> nextUnused 12%N w1 ->
  w_products w2 = w_products (snd (run w1)) ->
  w_conn w2 = Connected -> idle w2 -> nextUnused 12%N w2 ->
  w_products (snd (run w2))
  = (w_products w1 ++ seededProducts (w_nextOid w1) (w_now w1)
       ++ seededProducts (w_nextOid w2) (w_now w2))%list /\
  map (fun d => getField "title" (sd_fields d))
    (seededProducts (w_nextOid w2) (w_now w2))
  = map (fun d => getField "title" (sd_fields d))
      (seededProducts (w_nextOid w1) (w_now w1)) /\
  (forall d1 d2,
     In d1 (seededProducts (w_nextOid w1) (w_now w1)) ->
     In d2 (seededProducts (w_nextOid w2) (w_now w2)) ->
     sd_id d1 <> sd_id d2) /\
  incl (w_brands w2) (w_brands (snd (run w2))).
Proof.
  intros C1 I1 N1 Hp C2 I2 N2.
  assert (P1 : w_products (snd (run w1))
               = (w_products w1 ++ seededProducts (w_nextOid w1) (w_now w1))%list).
  { destruct w1 as [ps bs c o now q tr resp sched t].
    unfold idle, nextUnused, unused in *. cbn in C1, I1, N1 |- *. subst c q.
    rewrite (run_result ps bs o now tr resp sched t N1). reflexivity. }
  assert (P2 : w_products (snd (run w2))
               = (w_products w2 ++ seededProducts (w_nextOid w2) (w_now w2))%list
               /\ incl (w_brands w2) (w_brands (snd (run w2)))).
  { destruct w2 as [ps bs c o now q tr resp sched t].
    unfold idle, nextUnused, unused in *. cbn in C2, I2, N2 |- *. subst c q.
    rewrite (run_result ps bs o now tr resp sched t N2).
    split; [reflexivity|]. cbn [snd w_brands]. apply incl_appl, incl_refl. }
  destruct P2 as [P2 B2].
  split; [|split; [|split]].
  - rewrite P2, Hp, P1, <- app_assoc. reflexivity.
  - reflexivity.
  - intros d1 d2 H1 H2 E.
    assert (Hin : In d1 (w_products w2)).
    { rewrite Hp, P1. apply in_or_app. now right. }
    assert (Hk : exists k, (k < 12)%N /\ sd_id d2 = ObjectId.step (w_nextOid w2) k).
    { cbn [seededProducts In] in H2.
      repeat (destruct H2 as [<-|H2]; [eexists; split; [|reflexivity]; lia|]).
      destruct H2. }
    destruct Hk as (k & Hk & Eid).
    destruct (N2 k Hk) as [Hnew _].
    apply (proj1 (hasId_false _ _) Hnew d1 Hin). rewrite E. exact Eid.
  - exact B2.
Qed.

Lemma seeding_twice_duplicates_witness :
  let w1 := sampleSeedUnder alternating in
  let w2 := sampleReseed in
  nextUnused 12%N w1 /\
  w_products w2 = w_products (snd (run w1)) /\
  nextUnused 12%N w2 /\
  w_products (snd (run w2))
  = (w_products w1 ++ seededProducts (w_nextOid w1) (w_now w1)
       ++ seededProducts (w_nextOid w2) (w_now w2))%list /\
  map (fun d => getField "title" (sd_fields d))
    (seededProducts (w_nextOid w2) (w_now w2))
  = map (fun d => getField "title" (sd_fields d))
      (seededProducts (w_nextOid w1) (w_now w1)) /\
  (forall d1 d2,
     In d1 (seededProducts (w_nextOid w1) (w_now w1)) ->
     In d2 (seededProducts (w_nextOid w2) (w_now w2)) ->
     sd_id d1 <> sd_id d2) /\
  incl (w_brands w2) (w_brands (snd (run w2))).
Proof.
  cbn zeta.
  assert (H1 : nextUnused 12%N (sampleSeedUnder alternating))
    by (intros k _; split; reflexivity).
  assert (Hp : w_products sampleReseed
               = w_products (snd (run (sampleSeedUnder alternating))))
    by (vm_compute; reflexivity).
  assert (H2 : nextUnused 12%N sampleReseed).
  { intros k Hk.
    assert (E : In k [0; 1; 2; 3; 4; 5; 6; 7; 8; 9; 10; 11]%N) by (cbn; lia).
    cbn [In] in E.
    repeat (destruct E as [<-|E]; [split; vm_compute; reflexivity|]).
    destruct E. }
  exact (conj H1 (conj Hp (conj H2
           (seeding_twice_duplicates (sampleSeedUnder alternating) sampleReseed
              eq_refl eq_refl H1 Hp eq_refl eq_refl H2)))).
Defined.

(** Saves in flight behind a connection that never opened: those the
    schedule picks are rejected, and the rejection reaches no handler. *)
Lemma settleEach_unreachable (m : Model) (docs : list Document) :
  forall ps bs o now q tr resp sched t,
    Forall (fun d => validationErrors (modelSchema m) d = []) docs ->
    settleEach (map (PSave m) docs)
      (mkWorld ps bs Disconnected o now q tr resp sched t)
    = (Ok (map (PSave m) (pick sched t false docs)),
       mkWorld ps bs Disconnected o now q
         (tr ++ map (fun _ => EUnhandledRejection (DatabaseUnavailable "insertOne"))
                  (pick sched t true docs))
         resp sched (List.length docs + t)).
Proof.
  induction docs as [|d docs IH]; intros ps bs o now q tr resp sched t Hval;
    cbn [map settleEach pick List.length].
  - unfold ret. now rewrite app_nil_r.
  - inversion Hval as [|? ? Hd Hval']; subst.
    unfold bind at 1. unfold decide. world_eval.
    destruct (sched t) eqn:St; cbn [Bool.eqb].
    + unfold bind at 1. unfold bind at 1. unfold tryCatch, performSave.
      rewrite Hd. unfold dbInsertOne. world_eval.
      unfold emit, ret at 1. unfold bind. world_eval.
      rewrite IH by assumption.
      unfold ret. cbn [app map]. rewrite <- app_assoc, Nat.add_succ_r.
      reflexivity.
    + unfold bind, ret at 1.
      rewrite IH by assumption.
      unfold ret. cbn [app map]. rewrite Nat.add_succ_r. reflexivity.
Qed.

(** The whole run against a database that is out of reach, for every
    schedule. *)
Lemma run_unreachable (ps bs : list StoredDoc) (o : N) (now : Z)
    (tr : list Event) (resp : option Response) (sched : nat -> bool) (t : nat) :
  run (mkWorld ps bs Disconnected o now [] tr resp sched t)
  = (Throw (DatabaseUnavailable "insertMany"),
     mkWorld ps bs Disconnected (o + 12)%N now
       (map (PSave Brand) (pick sched t false (seedDrafts o)))
       (tr ++ map (ESave Brand) (seedDrafts o)
           ++ map (fun _ => EUnhandledRejection (DatabaseUnavailable "insertOne"))
                (pick sched t true (seedDrafts o))
           ++ [EInsertMany Product (seededProducts o now)])
       resp sched (5 + t)).
Proof.
  unfold run, main, bind, new_, bind, generateId, save_detached, bind, emit, ret.
  world_eval.
  cbn -[ObjectId.step await insertMany N.succ].
  rewrite !step_succ.
  unfold await, bind, settle, bind. world_eval.
  change [PSave Brand
            {| d_id := ObjectId.step o 0;
               d_fields := [("name", VStr "Apple");
                            ("url", VStr "https://www.apple.com")];
               d_castErrors := [] |};
          PSave Brand
            {| d_id := ObjectId.step o (N.succ 0);
               d_fields := [("name", VStr "Vespa");
                            ("url", VStr "https://www.vespa.com")];
               d_castErrors := [] |};
          PSave Brand
            {| d_id := ObjectId.step o (N.succ (N.succ 0));
               d_fields := [("name", VStr "New Balance");
                            ("url", VStr "https://www.newbalance.com")];
               d_castErrors := [] |};
          PSave Brand
            {| d_id := ObjectId.step o (N.succ (N.succ (N.succ 0)));
               d_fields := [("name", VStr "Tribe");
                            ("url", VStr "https://www.tribebicycles.com")];
               d_castErrors := [] |};
          PSave Brand
            {| d_id := ObjectId.step o (N.succ (N.succ (N.succ (N.succ 0))));
               d_fields := [("name", VStr "Stumptown");
                            ("url", VStr "https://www.stumptowncoffee.com")];
               d_castErrors := [] |}]
    with (map (PSave Brand) (seedDrafts o)).
  rewrite settleEach_unreachable by (repeat constructor).
  world_eval.
  unfold insertMany, bind. cbn [newAll seedProducts].
  unfold bind, new_, bind, generateId, ret. world_eval.
  cbn -[ObjectId.step N.succ hasId insertOrdered stored N.add pick seedDrafts
        dbInsertMany].
  rewrite !step_succ.
  rewrite dbInsertMany_eq. world_eval.
  replace (N.succ (N.succ (N.succ (N.succ (N.succ (N.succ (N.succ
            (N.succ (N.succ (N.succ (N.succ (N.succ o))))))))))))
    with (o + 12)%N by lia.
  rewrite <- !app_assoc.
  reflexivity.
Qed.

(** X13. When the database refuses the connection, the seed script does not
    get to its end, however far it gets: [run] does not return normally,
    no product and no brand is stored, "Created products!" is not printed
    and [db.close()] is not called. *)
Theorem seed_fails_without_a_database
    (net : Network) (msg : string) (ps bs : list StoredDoc)
    (o : ObjectId.t) (now : Z) (sched : nat -> bool) :
  net databaseUri = ConnectRefused msg ->
  let out := seedScript net (freshProcess ps bs o now sched) in
  fst out <> Ok tt /\
  w_products (snd out) = ps /\
  w_brands (snd out) = bs /\
  ~ In (EConsoleLog [LStr "Created products!"]) (w_trace (snd out)) /\
  ~ In EClose (w_trace (snd out)).
Proof.
  intros Hnet. cbn zeta.
  rewrite (seedScript_refused net msg _ Hnet).
  unfold freshProcess. world_eval. cbn [app].
  rewrite run_unreachable. cbn [fst snd w_products w_brands w_trace].
  split; [discriminate|]. split; [reflexivity|]. split; [reflexivity|].
  assert (Hno : forall e, (forall m d, e <> ESave m d) ->
                          (forall x, e <> EUnhandledRejection x) ->
                          (forall m ds, e <> EInsertMany m ds) ->
                          (forall u, e <> EConnect u) ->
                          (forall a, e <> EConsoleError a) ->
                          ~ In e ([EConnect databaseUri;
                                   EConsoleError [LStr "Connection error"; LStr msg]]
                                  ++ map (ESave Brand) (seedDrafts o)
                                  ++ map (fun _ => EUnhandledRejection
                                                     (DatabaseUnavailable "insertOne"))
                                       (pick sched 0 true (seedDrafts o))
                                  ++ [EInsertMany Product (seededProducts o now)])%list).
  { intros e H1 H2 H3 H4 H5 Hin.
    rewrite !in_app_iff in Hin. destruct Hin as [Hin|[Hin|[Hin|Hin]]].
    - cbn in Hin. destruct Hin as [<-|[<-|[]]]; [eapply H4|eapply H5]; reflexivity.
    - apply in_map_iff in Hin as (d & <- & _). eapply H1; reflexivity.
    - apply in_map_iff in Hin as (d & <- & _). eapply H2; reflexivity.
    - cbn in Hin. destruct Hin as [<-|[]]. eapply H3; reflexivity. }
  split; apply Hno; intros; discriminate.
Qed.

Lemma seed_fails_without_a_database_witness :
  let out := seedScript sampleRefusing
               (freshProcess [] [] 1000%N 1700000000000%Z alternating) in
  sampleRefusing databaseUri = ConnectRefused "connect ECONNREFUSED 127.0.0.1:27017" /\
  fst out <> Ok tt /\
  w_products (snd out) = [] /\
  w_brands (snd out) = [] /\
  ~ In (EConsoleLog [LStr "Created products!"]) (w_trace (snd out)) /\
  ~ In EClose (w_trace (snd out)).
Proof.
  exact (conj eq_refl
           (seed_fails_without_a_database sampleRefusing
              "connect ECONNREFUSED 127.0.0.1:27017" [] []
              1000%N 1700000000000%Z alternating eq_refl)).
Defined.



